(** * Data Consistency Checker: validation, repair, scan and status projection

    A shallow embedding of [backend/validationRules.js] (the rule set,
    [validateDocument], [repairDocument]) and of the [ConsistencyChecker]
    service ([checkCollection], [updateConsistencyStatus]), followed by the
    properties established about them.

    Conventions of the embedding.
    - A JavaScript number is [NaN] or an integer [Fin z].  Every comparison
      the program makes is against the integer bounds of a range, and
      [parseInt] only produces integers or [NaN]; above 2^53 JavaScript rounds
      to the nearest double, which keeps every comparison with those bounds.
      [Fin z] is the number the program holds when [|z| <= 2^53]; beyond, it
      stands for the double (or the infinity) JavaScript rounds [z] to, and
      what is proved of the value itself is stated up to 2^53.
    - A character is one code unit in 0..255.
    - An object met as a field value (array, date, nested document, function)
      is abstracted by what the program can observe of it: whether [typeof]
      says ['function'], its conversion to a number and to a string.  These
      are the objects a stored document holds, all of which convert; an
      object without a conversion to a primitive (one made with
      [Object.create(null)]), on which a comparison or a template literal
      raises, and symbols, are not values of the model.
    - Objects written as literals inherit from [Object.prototype]; a property
      read that finds no own property falls through to it.
    - [console.log] and [console.error] have no effect on the state and are
      left out. *)

From Stdlib Require Import ZArith String Ascii List Bool Lia.
From Stdlib Require Import DecimalString.
From stdpp Require Import base option list gmap strings.
Import ListNotations.

Local Open Scope Z_scope.
Local Open Scope string_scope.

(** ** JavaScript values *)

Module JS.

Inductive number : Type :=
| NaN
| Fin (z : Z).

Inductive value : Type :=
| VUndefined
| VNull
| VBool (b : bool)
| VNum (n : number)
| VStr (s : string)
| VObject (callable : bool) (toNumber : number) (toString : string).

(** [typeof v] *)
Definition typeof (v : value) : string :=
  match v with
  | VUndefined => "undefined"
  | VNull => "object"
  | VBool _ => "boolean"
  | VNum _ => "number"
  | VStr _ => "string"
  | VObject callable _ _ => if callable then "function" else "object"
  end.

(** ToBoolean: what [if (v)] and [!v] test. *)
Definition truthy (v : value) : bool :=
  match v with
  | VUndefined | VNull => false
  | VBool b => b
  | VNum NaN => false
  | VNum (Fin z) => negb (Z.eqb z 0)
  | VStr s => negb (String.eqb s "")
  | VObject _ _ _ => true
  end.

(** [v === undefined], [v === null], [v === 'lit'] *)
Definition is_undefined (v : value) : bool :=
  match v with VUndefined => true | _ => false end.

Definition is_null (v : value) : bool :=
  match v with VNull => true | _ => false end.

Definition strict_eq_string (v : value) (lit : string) : bool :=
  match v with VStr s => String.eqb s lit | _ => false end.

(** SameValueZero, the comparison of [Array.prototype.includes].  Two
    objects are the same value only when they are the same reference, which
    never holds between a document field and an element of a rule array. *)
Definition same_value_zero (a b : value) : bool :=
  match a, b with
  | VUndefined, VUndefined => true
  | VNull, VNull => true
  | VBool x, VBool y => Bool.eqb x y
  | VNum NaN, VNum NaN => true
  | VNum (Fin x), VNum (Fin y) => Z.eqb x y
  | VStr x, VStr y => String.eqb x y
  | _, _ => false
  end.

Definition includes (arr : list value) (v : value) : bool :=
  existsb (fun x => same_value_zero x v) arr.

(** Number to string, for integers below 10^21 in absolute value (beyond
    that JavaScript switches to exponent notation). *)
Definition Number_toString (n : number) : string :=
  match n with
  | NaN => "NaN"
  | Fin z => NilZero.string_of_int (Z.to_int z)
  end.

(** ToString, as done by template literals, [join] and [RegExp.test]. *)
Definition ToString (v : value) : string :=
  match v with
  | VUndefined => "undefined"
  | VNull => "null"
  | VBool true => "true"
  | VBool false => "false"
  | VNum n => Number_toString n
  | VStr s => s
  | VObject _ _ s => s
  end.

(** ToNumber of an operand of [<] or [>] whose other operand is a number.
    The program parses a string with [parseInt] before it compares, so no
    string reaches a comparison; StringToNumber is not modelled and the
    string case is never used. *)
Definition ToNumber (v : value) : number :=
  match v with
  | VUndefined => NaN
  | VNull => Fin 0
  | VBool b => Fin (if b then 1 else 0)
  | VNum n => n
  | VStr _ => NaN
  | VObject _ n _ => n
  end.

(** [v < bound] and [v > bound]; any comparison with NaN is false. *)
Definition lt (v : value) (bound : Z) : bool :=
  match ToNumber v with
  | Fin x => Z.ltb x bound
  | NaN => false
  end.

Definition gt (v : value) (bound : Z) : bool :=
  match ToNumber v with
  | Fin x => Z.ltb bound x
  | NaN => false
  end.

(** [isNaN(n)] on a number *)
Definition isNaN (n : number) : bool :=
  match n with NaN => true | Fin _ => false end.

(** *** parseInt(s, 10)

    Leading white space is skipped, then an optional sign, then the longest
    run of decimal digits is read; no digit gives [NaN].  The result is the
    integer read: the number JavaScript returns when its magnitude is at most
    2^53, and the integer that JavaScript rounds to a double (or to an
    infinity) beyond.  Either way it is [NaN] in the model exactly when it is
    in JavaScript. *)

Definition is_whitespace (c : ascii) : bool :=
  let n := nat_of_ascii c in
  ((9 <=? n) && (n <=? 13) || (n =? 32) || (n =? 160))%nat.

Definition digit_value (c : ascii) : option Z :=
  let n := nat_of_ascii c in
  if ((48 <=? n) && (n <=? 57))%nat then Some (Z.of_nat n - 48) else None.

Fixpoint trim_start (s : string) : string :=
  match s with
  | String c rest => if is_whitespace c then trim_start rest else s
  | EmptyString => EmptyString
  end.

(** Value of the longest prefix of decimal digits; [acc] is [None] until a
    digit has been read. *)
Fixpoint digits_prefix (s : string) (acc : option Z) : option Z :=
  match s with
  | String c rest =>
      match digit_value c with
      | Some d => digits_prefix rest (Some (10 * default 0 acc + d))
      | None => acc
      end
  | EmptyString => acc
  end.

Definition parseInt (s : string) : number :=
  let s1 := trim_start s in
  let '(sign, s2) :=
    match s1 with
    | String "-" rest => (-1, rest)
    | String "+" rest => (1, rest)
    | _ => (1, s1)
    end in
  match digits_prefix s2 None with
  | Some n => Fin (sign * n)
  | None => NaN
  end.

(** *** Regular expressions

    Anchored patterns ([^...$], no flags) as a small regular-expression
    language matched by derivatives. *)

Inductive regex : Type :=
| Void
| Eps
| Class (p : ascii -> bool)
| Seq (r1 r2 : regex)
| Alt (r1 r2 : regex)
| Star (r : regex).

Definition Plus (r : regex) : regex := Seq r (Star r).

Fixpoint nullable (r : regex) : bool :=
  match r with
  | Void => false
  | Eps => true
  | Class _ => false
  | Seq r1 r2 => nullable r1 && nullable r2
  | Alt r1 r2 => nullable r1 || nullable r2
  | Star _ => true
  end.

Fixpoint deriv (c : ascii) (r : regex) : regex :=
  match r with
  | Void => Void
  | Eps => Void
  | Class p => if p c then Eps else Void
  | Seq r1 r2 =>
      if nullable r1
      then Alt (Seq (deriv c r1) r2) (deriv c r2)
      else Seq (deriv c r1) r2
  | Alt r1 r2 => Alt (deriv c r1) (deriv c r2)
  | Star r1 => Seq (deriv c r1) (Star r1)
  end.

Fixpoint matches (r : regex) (s : string) : bool :=
  match s with
  | EmptyString => nullable r
  | String c rest => matches (deriv c r) rest
  end.

(** [re.test(v)]: the argument is converted to a string first. *)
Definition test (r : regex) (v : value) : bool := matches r (ToString v).

(** *** Property reads on plain objects *)

(** The own properties of [Object.prototype]. *)
Definition Object_prototype_keys : list string :=
  [ "constructor"; "__defineGetter__"; "__defineSetter__"; "hasOwnProperty";
    "__lookupGetter__"; "__lookupSetter__"; "isPrototypeOf";
    "propertyIsEnumerable"; "toString"; "valueOf"; "__proto__";
    "toLocaleString" ].

Definition inherited (k : string) : bool :=
  existsb (String.eqb k) Object_prototype_keys.

(** What a read of an inherited property yields: [Object.prototype] itself
    for [__proto__], the function [Object] for [constructor], the built-in
    method of that name for the others. *)
Definition Object_prototype_get (k : string) : value :=
  if String.eqb k "__proto__" then VObject false NaN "[object Object]"
  else if String.eqb k "constructor"
       then VObject true NaN "function Object() { [native code] }"
       else if inherited k
            then VObject true NaN ("function " ++ k ++ "() { [native code] }")
            else VUndefined.

(** An object used as an attribute bag: its own properties. *)
Abbreviation object := (gmap string value).

(** [o[k]] *)
Definition get (o : object) (k : string) : value :=
  match o !! k with
  | Some v => v
  | None => Object_prototype_get k
  end.

(** [o[k] = v].  For [k = '__proto__'] on an object without such an own
    property the assignment goes to the setter inherited from
    [Object.prototype], which creates no property; the only value the
    program ever assigns under that key is [Object.prototype] itself, so the
    prototype stays what it was. *)
Definition set (o : object) (k : string) (v : value) : object :=
  if String.eqb k "__proto__" && bool_decide (o !! k = None)
  then o
  else <[k := v]> o.

(** Exceptions: a [TypeError] raised by reading property [prop] of
    [undefined], or an [Error] with a message. *)
Inductive exn : Type :=
| TypeError (prop : string)
| Error (message : string).

Definition exn_message (e : exn) : string :=
  match e with
  | TypeError prop =>
      "Cannot read properties of undefined (reading '" ++ prop ++ "')"
  | Error m => m
  end.

Inductive result (A : Type) : Type :=
| Ok (a : A)
| Throw (e : exn).
Arguments Ok {A} a.
Arguments Throw {A} e.

Definition bind {A B : Type} (m : result A) (k : A -> result B) : result B :=
  match m with
  | Ok a => k a
  | Throw e => Throw e
  end.

End JS.

Notation "'let!' x ':=' m 'in' k" := (JS.bind m (fun x => k))
  (at level 10, x pattern, m at level 100, k at level 200).

Import JS.

(** ** The rule set ([validationRules]) *)

Record Range : Type := { min : Z; max : Z }.

(** One entry of [validationRules].  The objects of the source are kept as
    association lists in the order the literal lists their keys, which is the
    order [Object.keys] enumerates them in. *)
Record RuleSet : Type := {
  requiredFields : list string;
  fieldTypes : list (string * string);
  allowedValues : list (string * list value);
  valueRanges : list (string * Range);
  defaultValues : list (string * value);
  customValidations : list (string * (value -> bool))
}.

(** Own property of an object literal. *)
Fixpoint own {A : Type} (o : list (string * A)) (k : string) : option A :=
  match o with
  | [] => None
  | (k', a) :: rest => if String.eqb k k' then Some a else own rest k
  end.

(** [/^[^\s@]+@[^\s@]+\.[^\s@]+$/] *)
Definition not_space_at (c : ascii) : bool :=
  negb (is_whitespace c) && negb (Ascii.eqb c "@").

Definition emailRegex : regex :=
  Seq (Plus (Class not_space_at))
    (Seq (Class (Ascii.eqb "@"))
       (Seq (Plus (Class not_space_at))
          (Seq (Class (Ascii.eqb "."))
             (Plus (Class not_space_at))))).

Definition users : RuleSet := {|
  requiredFields := ["name"; "email"];
  fieldTypes :=
    [("name", "string"); ("email", "string"); ("age", "number");
     ("role", "string"); ("isActive", "boolean")];
  allowedValues := [("role", [VStr "user"; VStr "admin"; VStr "moderator"])];
  valueRanges := [("age", {| min := 0; max := 150 |})];
  defaultValues :=
    [("email", VStr "missing@example.com"); ("age", VNum (Fin 0));
     ("role", VStr "user"); ("isActive", VBool true)];
  customValidations := [("email", fun value => test emailRegex value)]
|}.

Definition validationRules : list (string * RuleSet) := [("users", users)].

(** [validationRules[collection]]: a rule set, [undefined], or something
    inherited from [Object.prototype] (truthy, and without any of the
    properties of a rule set). *)
Inductive rules_ref : Type :=
| RulesFound (rules : RuleSet)
| RulesInherited
| RulesUndefined.

Definition rules_for (collection : string) : rules_ref :=
  match own validationRules collection with
  | Some rules => RulesFound rules
  | None => if inherited collection then RulesInherited else RulesUndefined
  end.

(** [rules.defaultValues[field]] *)
Definition default_value (rules : RuleSet) (field : string) : value :=
  match own (defaultValues rules) field with
  | Some v => v
  | None => Object_prototype_get field
  end.

Definition rules_defaultValues (rules : rules_ref) (field : string)
  : result value :=
  match rules with
  | RulesFound r => Ok (default_value r field)
  | RulesInherited => Throw (TypeError field)
  | RulesUndefined => Throw (TypeError "defaultValues")
  end.

(** [rules.valueRanges[field]] followed by the first read of [range.min];
    [field] is never an inherited name where the source does this. *)
Definition rules_valueRanges (rules : rules_ref) (field : string)
  : result Range :=
  match rules with
  | RulesFound r =>
      match own (valueRanges r) field with
      | Some range => Ok range
      | None => Throw (TypeError "min")
      end
  | RulesInherited => Throw (TypeError field)
  | RulesUndefined => Throw (TypeError "valueRanges")
  end.

(** ** Issues and repair actions *)

Record Issue : Type := {
  field : string;
  issue : string;
  severity : string;
  description : string
}.

(** An element of the array [validateDocument] returns: an issue object, or
    the bare string returned for a collection without rules. *)
Inductive issue_item : Type :=
| IssueObject (i : Issue)
| IssueString (s : string).

Record RepairAction : Type := {
  repair_field : string;
  action : string;
  oldValue : value;
  newValue : value
}.

Record RepairResult : Type := {
  document : object;
  repairs : list RepairAction;
  shouldDelete : bool
}.

(** [arr.join(sep)]: [undefined] and [null] are rendered as the empty
    string. *)
Definition join_item (v : value) : string :=
  match v with
  | VUndefined | VNull => ""
  | _ => ToString v
  end.

Fixpoint join (sep : string) (arr : list value) : string :=
  match arr with
  | [] => ""
  | [v] => join_item v
  | v :: rest => join_item v ++ sep ++ join sep rest
  end.

(** ** validateDocument *)

Section Validate.
Variable rules : RuleSet.
Variable document : object.

Definition check_required : list Issue :=
  flat_map (fun field =>
    let v := get document field in
    if is_undefined v || is_null v || strict_eq_string v ""
    then [ {| field := field;
              issue := "missing_required_field";
              severity := "high";
              description :=
                "Required field '" ++ field ++ "' is missing or empty" |} ]
    else [])
    (requiredFields rules).

Definition check_types : list Issue :=
  flat_map (fun '(field, expectedType) =>
    let v := get document field in
    if negb (is_undefined v) then
      let actualType := typeof v in
      if String.eqb expectedType "number" && String.eqb actualType "string"
      then
        let parsed := parseInt (ToString v) in
        if isNaN parsed
        then [ {| field := field;
                  issue := "invalid_type";
                  severity := "medium";
                  description :=
                    "Field '" ++ field ++ "' should be " ++ expectedType
                    ++ " but is " ++ actualType
                    ++ " and cannot be parsed" |} ]
        else []
      else if negb (String.eqb expectedType actualType)
      then [ {| field := field;
                issue := "invalid_type";
                severity := "medium";
                description :=
                  "Field '" ++ field ++ "' should be " ++ expectedType
                  ++ " but is " ++ actualType |} ]
      else []
    else [])
    (fieldTypes rules).

Definition check_allowed : list Issue :=
  flat_map (fun '(field, allowed) =>
    let v := get document field in
    if negb (is_undefined v) then
      if negb (includes allowed v)
      then [ {| field := field;
                issue := "invalid_value";
                severity := "high";
                description :=
                  "Field '" ++ field ++ "' has invalid value '"
                  ++ ToString v ++ "'. Allowed: " ++ join ", " allowed |} ]
      else []
    else [])
    (allowedValues rules).

(** [typeof v === 'string' ? parseInt(v, 10) : v] *)
Definition range_value (v : value) : value :=
  if String.eqb (typeof v) "string" then VNum (parseInt (ToString v)) else v.

Definition check_ranges : list Issue :=
  flat_map (fun '(field, range) =>
    let v := get document field in
    if negb (is_undefined v) then
      let value := range_value v in
      if lt value (min range) || gt value (max range)
      then [ {| field := field;
                issue := "out_of_range";
                severity := "medium";
                description :=
                  "Field '" ++ field ++ "' value " ++ ToString value
                  ++ " is out of range ["
                  ++ Number_toString (Fin (min range)) ++ ", "
                  ++ Number_toString (Fin (max range)) ++ "]" |} ]
      else []
    else [])
    (valueRanges rules).

Definition check_custom : list Issue :=
  flat_map (fun '(field, validation) =>
    let v := get document field in
    if negb (is_undefined v) then
      let isValid := validation v in
      if negb isValid
      then [ {| field := field;
                issue := "custom_validation_failed";
                severity := "medium";
                description :=
                  "Field '" ++ field ++ "' failed custom validation" |} ]
      else []
    else [])
    (customValidations rules).

(** The five passes of [validateDocument], in the order they push. *)
Definition validate_with : list Issue :=
  (check_required ++ check_types ++ check_allowed ++ check_ranges
   ++ check_custom)%list.
End Validate.

Definition validateDocument (document : object) (collection : string)
  : result (list issue_item) :=
  match rules_for collection with
  | RulesUndefined =>
      Ok [IssueString
            ("No validation rules found for collection: " ++ collection)]
  | RulesInherited =>
      (* [rules] is truthy, [rules.requiredFields] is undefined *)
      Throw (TypeError "forEach")
  | RulesFound rules => Ok (map IssueObject (validate_with rules document))
  end.

(** ** repairDocument *)

Section Repair.
Variable rules : rules_ref.
Variable document : object.

(** The body of the [forEach] callback on an issue object, acting on
    [repairedDoc] and [repairs]. *)
Definition repair_issue (st : object * list RepairAction) (i : Issue)
  : result (object * list RepairAction) :=
  let '(repairedDoc, repairs) := st in
  let field := i.(field) in
  let issueType := i.(issue) in
  if String.eqb issueType "missing_required_field" then
    let! d := rules_defaultValues rules field in
    if truthy d
    then Ok (set repairedDoc field d,
             (repairs ++ [ {| repair_field := field;
                             action := "set_default";
                             oldValue := VUndefined;
                             newValue := d |} ])%list)
    else Ok st
  else if String.eqb issueType "invalid_type" then
    if String.eqb field "age"
       && String.eqb (typeof (get repairedDoc field)) "string"
    then
      let parsed := parseInt (ToString (get repairedDoc field)) in
      if negb (isNaN parsed)
      then Ok (set repairedDoc field (VNum parsed),
               (repairs ++ [ {| repair_field := field;
                               action := "type_conversion";
                               oldValue := get repairedDoc field;
                               newValue := VNum parsed |} ])%list)
      else Ok st
    else Ok st
  else if String.eqb issueType "invalid_value" then
    if String.eqb field "role"
    then
      let! d := rules_defaultValues rules field in
      Ok (set repairedDoc field d,
          (repairs ++ [ {| repair_field := field;
                          action := "set_default";
                          oldValue := get document field;
                          newValue := d |} ])%list)
    else Ok st
  else if String.eqb issueType "out_of_range" then
    if String.eqb field "age"
    then
      let! range := rules_valueRanges rules field in
      let value := range_value (get repairedDoc field) in
      if lt value (min range)
      then Ok (set repairedDoc field (VNum (Fin (min range))),
               (repairs ++ [ {| repair_field := field;
                               action := "clamp_to_min";
                               oldValue := value;
                               newValue := VNum (Fin (min range)) |} ])%list)
      else if gt value (max range)
      then Ok (set repairedDoc field (VNum (Fin (max range))),
               (repairs ++ [ {| repair_field := field;
                               action := "clamp_to_max";
                               oldValue := value;
                               newValue := VNum (Fin (max range)) |} ])%list)
      else Ok st
    else Ok st
  else Ok st.

(** Destructuring a string gives [undefined] for both [field] and
    [issue], which no [case] of the [switch] matches. *)
Definition repair_step (st : object * list RepairAction) (it : issue_item)
  : result (object * list RepairAction) :=
  match it with
  | IssueObject i => repair_issue st i
  | IssueString _ => Ok st
  end.

(** [issues.forEach(...)] *)
Fixpoint repair_all (issues : list issue_item)
    (st : object * list RepairAction)
  : result (object * list RepairAction) :=
  match issues with
  | [] => Ok st
  | it :: rest => let! st' := repair_step st it in repair_all rest st'
  end.

(** The predicate given to [issues.some]. *)
Definition irreparable (it : issue_item) : result bool :=
  match it with
  | IssueObject i =>
      if String.eqb i.(severity) "high"
         && String.eqb i.(issue) "invalid_value"
      then
        let! d := rules_defaultValues rules i.(field) in
        Ok (negb (truthy d))
      else Ok false
  | IssueString _ => Ok false
  end.

Fixpoint some_irreparable (issues : list issue_item) : result bool :=
  match issues with
  | [] => Ok false
  | it :: rest =>
      let! b := irreparable it in
      if b then Ok true else some_irreparable rest
  end.

Definition repair_with (issues : list issue_item) : result RepairResult :=
  let! st := repair_all issues (document, []) in
  let! del := some_irreparable issues in
  (* { document: repairedDoc, repairs, shouldDelete } *)
  Ok (Build_RepairResult (fst st) (snd st) del).
End Repair.

Definition repairDocument (document : object) (issues : list issue_item)
    (collection : string) : result RepairResult :=
  repair_with (rules_for collection) document issues.

(** ** The consistency checker service *)

(** A document as [Model.find({}).lean()] returns it: its fields, and its
    identifier as [doc._id.toString()] and a template literal print it. *)
Record Doc : Type := {
  doc_id : string;
  doc_fields : object
}.

Module Report.
(** The two shapes of an entry of [report.details]. *)
Inductive Detail : Type :=
| Summary (documentId issue action details : string)
| Repaired (documentId issue action : string) (oldValue newValue : value).

Record t : Type := {
  timestamp : Z;
  collection : string;
  totalDocuments : nat;
  inconsistenciesFound : nat;
  repairsApplied : nat;
  documentsDeleted : nat;
  errors : list string;
  details : list Detail;
  duration : Z
}.
End Report.

Module Status.
(** The update handed to [Status.findOneAndUpdate].  The report built by
    [checkCollection] has no [_id], so [lastReportId] is [None]. *)
Record t : Type := {
  collection : string;
  isConsistent : bool;
  lastCheckTime : Z;
  lastConsistentTime : option Z;
  allReplicasConsistent : bool;
  lastReportId : option string
}.
End Status.

(** The Mongoose model given to [checkCollection], over a storage state
    [DB].  An operation either succeeds or rejects with an error. *)
Record Model (DB : Type) : Type := {
  find : DB -> result (list Doc);
  findByIdAndDelete : string -> DB -> result DB;
  findByIdAndUpdate : string -> object -> DB -> result DB
}.
Arguments find {DB} _ _.
Arguments findByIdAndDelete {DB} _ _ _.
Arguments findByIdAndUpdate {DB} _ _ _ _.

(** The fields of a [ConsistencyChecker] instance. *)
Record Checker : Type := {
  isRunning : bool;
  currentCheck : option string
}.

(** [constructor()] *)
Definition new_checker : Checker :=
  {| isRunning := false; currentCheck := None |}.

(** The readings of the clock a scan takes: [Date.now()] at the start,
    [new Date()] in the status update, [Date.now()] at the end. *)
Record Clock : Type := {
  startTime : Z;
  statusTime : Z;
  endTime : Z
}.

Module ConsistencyChecker.
Import Report.

Section Service.
Context {DB : Type}.
(** [Status.findOneAndUpdate({collection}, update, {upsert: true})] of the
    Status model. *)
Variable Status_findOneAndUpdate : string -> Status.t -> DB -> result DB.

Definition with_totalDocuments (n : nat) (r : Report.t) : Report.t :=
  {| timestamp := r.(timestamp); collection := r.(collection);
     totalDocuments := n;
     inconsistenciesFound := r.(inconsistenciesFound);
     repairsApplied := r.(repairsApplied);
     documentsDeleted := r.(documentsDeleted);
     errors := r.(errors); details := r.(details);
     duration := r.(duration) |}.

Definition add_inconsistencies (n : nat) (r : Report.t) : Report.t :=
  {| timestamp := r.(timestamp); collection := r.(collection);
     totalDocuments := r.(totalDocuments);
     inconsistenciesFound := (r.(inconsistenciesFound) + n)%nat;
     repairsApplied := r.(repairsApplied);
     documentsDeleted := r.(documentsDeleted);
     errors := r.(errors); details := r.(details);
     duration := r.(duration) |}.

Definition add_repairs (n : nat) (r : Report.t) : Report.t :=
  {| timestamp := r.(timestamp); collection := r.(collection);
     totalDocuments := r.(totalDocuments);
     inconsistenciesFound := r.(inconsistenciesFound);
     repairsApplied := (r.(repairsApplied) + n)%nat;
     documentsDeleted := r.(documentsDeleted);
     errors := r.(errors); details := r.(details);
     duration := r.(duration) |}.

Definition add_deleted (n : nat) (r : Report.t) : Report.t :=
  {| timestamp := r.(timestamp); collection := r.(collection);
     totalDocuments := r.(totalDocuments);
     inconsistenciesFound := r.(inconsistenciesFound);
     repairsApplied := r.(repairsApplied);
     documentsDeleted := (r.(documentsDeleted) + n)%nat;
     errors := r.(errors); details := r.(details);
     duration := r.(duration) |}.

Definition push_error (msg : string) (r : Report.t) : Report.t :=
  {| timestamp := r.(timestamp); collection := r.(collection);
     totalDocuments := r.(totalDocuments);
     inconsistenciesFound := r.(inconsistenciesFound);
     repairsApplied := r.(repairsApplied);
     documentsDeleted := r.(documentsDeleted);
     errors := (r.(errors) ++ [msg])%list; details := r.(details);
     duration := r.(duration) |}.

Definition push_details (ds : list Detail) (r : Report.t) : Report.t :=
  {| timestamp := r.(timestamp); collection := r.(collection);
     totalDocuments := r.(totalDocuments);
     inconsistenciesFound := r.(inconsistenciesFound);
     repairsApplied := r.(repairsApplied);
     documentsDeleted := r.(documentsDeleted);
     errors := r.(errors); details := (r.(details) ++ ds)%list;
     duration := r.(duration) |}.

Definition with_duration (d : Z) (r : Report.t) : Report.t :=
  {| timestamp := r.(timestamp); collection := r.(collection);
     totalDocuments := r.(totalDocuments);
     inconsistenciesFound := r.(inconsistenciesFound);
     repairsApplied := r.(repairsApplied);
     documentsDeleted := r.(documentsDeleted);
     errors := r.(errors); details := r.(details);
     duration := d |}.

(** [issues.map(i => i.description).join('; ')] *)
Definition description_of (it : issue_item) : value :=
  match it with
  | IssueObject i => VStr i.(description)
  | IssueString _ => VUndefined
  end.

Definition joined_descriptions (issues : list issue_item) : string :=
  join "; " (map description_of issues).

(** The status record [updateConsistencyStatus] computes from a report. *)
Definition status_of (collectionName : string) (report : Report.t)
    (now : Z) : Status.t :=
  let isConsistent :=
    Nat.eqb report.(inconsistenciesFound) 0
    || Nat.eqb report.(inconsistenciesFound)
         (report.(repairsApplied) + report.(documentsDeleted)) in
  {| Status.collection := collectionName;
     Status.isConsistent := isConsistent;
     Status.lastCheckTime := now;
     Status.lastConsistentTime := if isConsistent then Some now else None;
     Status.allReplicasConsistent := isConsistent;
     Status.lastReportId := None |}.

(** [updateConsistencyStatus]: a failure of the upsert is caught and
    logged. *)
Definition updateConsistencyStatus (collectionName : string)
    (report : Report.t) (now : Z) (db : DB) : DB :=
  match Status_findOneAndUpdate collectionName
          (status_of collectionName report now) db with
  | Ok db' => db'
  | Throw _ => db
  end.

Variable M : Model DB.
Variable collectionName : string.

(** The body of the inner [try] for one document.  The report is mutated
    in place, so what was added before a failure stays; the third
    component is the error the inner [catch] receives, if any. *)
Definition check_document (doc : Doc) (report : Report.t) (db : DB)
  : Report.t * DB * option exn :=
  match validateDocument doc.(doc_fields) collectionName with
  | Throw e => (report, db, Some e)
  | Ok issues =>
      if (0 <? length issues)%nat then
        let report := add_inconsistencies (length issues) report in
        match repairDocument doc.(doc_fields) issues collectionName with
        | Throw e => (report, db, Some e)
        | Ok repairResult =>
            if repairResult.(shouldDelete) then
              match findByIdAndDelete M doc.(doc_id) db with
              | Throw e => (report, db, Some e)
              | Ok db' =>
                  (push_details
                     [Summary doc.(doc_id) "irreparable_document" "deleted"
                        (joined_descriptions issues)]
                     (add_deleted 1 report), db', None)
              end
            else if (0 <? length repairResult.(repairs))%nat then
              match findByIdAndUpdate M doc.(doc_id)
                      repairResult.(document) db with
              | Throw e => (report, db, Some e)
              | Ok db' =>
                  (push_details
                     (map (fun repair =>
                             Repaired doc.(doc_id)
                               (repair.(repair_field) ++ ": "
                                ++ repair.(action))
                               "repaired"
                               repair.(oldValue) repair.(newValue))
                          repairResult.(repairs))
                     (add_repairs (length repairResult.(repairs)) report),
                   db', None)
              end
            else
              (push_details
                 [Summary doc.(doc_id) "unrepaired_issues" "none"
                    (joined_descriptions issues)]
                 report, db, None)
        end
      else (report, db, None)
  end.

(** One iteration of [for (const doc of documents)], inner [catch]
    included. *)
Definition process_document (doc : Doc) (st : Report.t * DB)
  : Report.t * DB :=
  let '(report, db) := st in
  match check_document doc report db with
  | (report', db', None) => (report', db')
  | (report', db', Some docError) =>
      (push_error
         ("Error processing document " ++ doc.(doc_id) ++ ": "
          ++ exn_message docError) report', db')
  end.

Definition process_documents (documents : list Doc) (st : Report.t * DB)
  : Report.t * DB :=
  fold_left (fun st doc => process_document doc st) documents st.

(** The report as created at the start of a scan. *)
Definition empty_report (now : Z) : Report.t :=
  {| timestamp := now; collection := collectionName;
     totalDocuments := 0; inconsistenciesFound := 0; repairsApplied := 0;
     documentsDeleted := 0; errors := []; details := []; duration := 0 |}.

(** The outer [try] and its [catch]. *)
Definition scan (clock : Clock) (db : DB) : Report.t * DB :=
  let report := empty_report clock.(startTime) in
  match find M db with
  | Throw error =>
      (push_error ("Consistency check failed: " ++ exn_message error)
         report, db)
  | Ok documents =>
      let report := with_totalDocuments (length documents) report in
      let '(report, db) := process_documents documents (report, db) in
      (report, updateConsistencyStatus collectionName report
                 clock.(statusTime) db)
  end.

(** The guard at the entry of [checkCollection] and the raising of the
    flag. *)
Definition enter (this : Checker) : result Checker :=
  if this.(isRunning)
  then Throw (Error "Consistency check already in progress")
  else Ok {| isRunning := true; currentCheck := this.(currentCheck) |}.

(** The [finally] block. *)
Definition leave (this : Checker) : Checker :=
  {| isRunning := false; currentCheck := None |}.

(** [checkCollection(collectionName, Model)]: the value returned or the
    error thrown, with the checker and the storage it leaves. *)
Definition checkCollection (clock : Clock) (this : Checker) (db : DB)
  : result Report.t * Checker * DB :=
  match enter this with
  | Throw e => (Throw e, this, db)
  | Ok this1 =>
      let '(report, db') := scan clock db in
      let report :=
        with_duration (clock.(endTime) - clock.(startTime)) report in
      (Ok report, leave this1, db')
  end.
End Service.

(** [isActive()] *)
Definition isActive (this : Checker) : bool := this.(isRunning).

(** [getCurrentCheck()] *)
Definition getCurrentCheck (this : Checker) : option string :=
  this.(currentCheck).

(** A date-valued property of the object [getConsistencyStatus] returns:
    [null], [undefined] (the stored record has no such field), or a date. *)
Inductive date_field : Type :=
| DateNull
| DateUndefined
| DateValue (t : Z).

Module StatusView.
(** The object [getConsistencyStatus] returns; [error] is present only in
    the answer to a failed lookup. *)
Record t : Type := {
  collection : string;
  isConsistent : bool;
  lastCheckTime : date_field;
  lastConsistentTime : date_field;
  allReplicasConsistent : bool;
  status : string;
  error : option string
}.
End StatusView.

Section Reader.
Context {DB : Type}.
(** [Status.findOne({ collection })] of the Status model: the stored record,
    [null] when there is none, or a rejection. *)
Variable Status_findOne : string -> DB -> result (option Status.t).

(** [getConsistencyStatus(collectionName)] *)
Definition getConsistencyStatus (collectionName : string) (db : DB)
  : StatusView.t :=
  match Status_findOne collectionName db with
  | Ok None =>
      {| StatusView.collection := collectionName;
         StatusView.isConsistent := false;
         StatusView.lastCheckTime := DateNull;
         StatusView.lastConsistentTime := DateNull;
         StatusView.allReplicasConsistent := false;
         StatusView.status := "never_checked";
         StatusView.error := None |}
  | Ok (Some status) =>
      {| StatusView.collection := status.(Status.collection);
         StatusView.isConsistent := status.(Status.isConsistent);
         StatusView.lastCheckTime := DateValue status.(Status.lastCheckTime);
         StatusView.lastConsistentTime :=
           match status.(Status.lastConsistentTime) with
           | Some t => DateValue t
           | None => DateUndefined
           end;
         StatusView.allReplicasConsistent :=
           status.(Status.allReplicasConsistent);
         StatusView.status :=
           if status.(Status.isConsistent)
           then "consistent" else "inconsistent";
         StatusView.error := None |}
  | Throw error =>
      {| StatusView.collection := collectionName;
         StatusView.isConsistent := false;
         StatusView.lastCheckTime := DateNull;
         StatusView.lastConsistentTime := DateNull;
         StatusView.allReplicasConsistent := false;
         StatusView.status := "error";
         StatusView.error := Some (exn_message error) |}
  end.
End Reader.

End ConsistencyChecker.

(** ** The report generator *)

Module ReportGenerator.

(** [getReportStatus(report)] *)
Definition getReportStatus (report : Report.t) : string :=
  if (0 <? length report.(Report.errors))%nat then "error"
  else if Nat.eqb report.(Report.inconsistenciesFound) 0 then "clean"
  else if Nat.eqb report.(Report.inconsistenciesFound)
            (report.(Report.repairsApplied)
             + report.(Report.documentsDeleted))
  then "repaired"
  else "partial".

End ReportGenerator.

(** ** Auxiliary definitions used to state the properties *)

(** Decimal value of a string of digits. *)
Fixpoint decimal_from (s : string) (acc : Z) : Z :=
  match s with
  | EmptyString => acc
  | String c rest =>
      decimal_from rest (10 * acc + (Z.of_nat (nat_of_ascii c) - 48))
  end.

Definition decimal (s : string) : Z := decimal_from s 0.

Definition is_digit (c : ascii) : bool :=
  match digit_value c with Some _ => true | None => false end.

Fixpoint all_digits (s : string) : bool :=
  match s with
  | EmptyString => true
  | String c rest => is_digit c && all_digits rest
  end.

(** The string does not go on with a digit. *)
Definition no_leading_digit (s : string) : bool :=
  match s with
  | EmptyString => true
  | String c _ => negb (is_digit c)
  end.

(** A string of white space, as [parseInt] skips it. *)
Fixpoint all_whitespace (s : string) : bool :=
  match s with
  | EmptyString => true
  | String c rest => is_whitespace c && all_whitespace rest
  end.

(** An optional sign, and the factor it stands for. *)
Definition optional_sign (s : string) : bool :=
  String.eqb s "" || String.eqb s "+" || String.eqb s "-".

Definition sign_factor (s : string) : Z :=
  if String.eqb s "-" then -1 else 1.

(** An in-memory collection with injected faults, to run scans on: the
    stored documents, the stored status records, and the operations that
    are to fail. *)
Record MemDB : Type := {
  mem_docs : list Doc;
  mem_status : gmap string Status.t;
  mem_find_fails : bool;
  mem_write_fails : string -> bool
}.

Definition mem_find (db : MemDB) : result (list Doc) :=
  if db.(mem_find_fails) then Throw (Error "connection lost")
  else Ok db.(mem_docs).

Definition mem_delete (id : string) (db : MemDB) : result MemDB :=
  if db.(mem_write_fails) id then Throw (Error "write failed")
  else Ok {| mem_docs :=
               List.filter (fun d => negb (String.eqb d.(doc_id) id))
                 db.(mem_docs);
             mem_status := db.(mem_status);
             mem_find_fails := db.(mem_find_fails);
             mem_write_fails := db.(mem_write_fails) |}.

Definition mem_update (id : string) (o : object) (db : MemDB)
  : result MemDB :=
  if db.(mem_write_fails) id then Throw (Error "write failed")
  else Ok {| mem_docs :=
               map (fun d => if String.eqb d.(doc_id) id
                             then {| doc_id := id; doc_fields := o |}
                             else d)
                 db.(mem_docs);
             mem_status := db.(mem_status);
             mem_find_fails := db.(mem_find_fails);
             mem_write_fails := db.(mem_write_fails) |}.

Definition mem_upsert_status (c : string) (s : Status.t) (db : MemDB)
  : result MemDB :=
  Ok {| mem_docs := db.(mem_docs);
        mem_status := <[c := s]> db.(mem_status);
        mem_find_fails := db.(mem_find_fails);
        mem_write_fails := db.(mem_write_fails) |}.

Definition MemModel : Model MemDB :=
  {| find := mem_find;
     findByIdAndDelete := mem_delete;
     findByIdAndUpdate := mem_update |}.

Definition obj (l : list (string * value)) : object := list_to_map l.

Definition mk_issue (f k sev : string) : issue_item :=
  IssueObject
    {| field := f; issue := k; severity := sev; description := "" |}.

(** Documents of the seed data. *)
Definition charlie : object :=
  obj [("name", VStr "Charlie Brown"); ("email", VStr "charlie@example.com");
       ("age", VStr "42"); ("role", VStr "user"); ("isActive", VBool true)].

Definition frank : object :=
  obj [("name", VStr "Frank Miller"); ("email", VStr "frank@example.com");
       ("age", VNum (Fin (-5))); ("role", VStr "user");
       ("isActive", VBool true)].

Definition alice : object :=
  obj [("email", VStr "alice@example.com"); ("age", VNum (Fin 28));
       ("role", VStr "user"); ("isActive", VBool true)].

Definition alice_issues : list issue_item :=
  [IssueObject
     {| field := "name"; issue := "missing_required_field";
        severity := "high";
        description := "Required field 'name' is missing or empty" |}].

(** The document of the worked example: a name and a numeric string for
    [age], no [email]. *)
Definition bob : object := obj [("name", VStr "Bob"); ("age", VStr "42")].

Definition luke : object :=
  obj [("name", VStr "Luke Cage"); ("email", VStr "luke@example.com");
       ("role", VStr "user"); ("isActive", VBool true)].

Definition grace : object :=
  obj [("name", VStr "Grace Lee"); ("email", VStr "grace@example.com");
       ("age", VNum (Fin 200)); ("role", VStr "superuser");
       ("isActive", VBool true)].

Definition grace_issues : list issue_item :=
  [mk_issue "role" "invalid_value" "high";
   mk_issue "age" "out_of_range" "medium"].

Definition grace_repaired : RepairResult :=
  {| document :=
       obj [("name", VStr "Grace Lee"); ("email", VStr "grace@example.com");
            ("age", VNum (Fin 150)); ("role", VStr "user");
            ("isActive", VBool true)];
     repairs :=
       [ {| repair_field := "role"; action := "set_default";
            oldValue := VStr "superuser"; newValue := VStr "user" |};
         {| repair_field := "age"; action := "clamp_to_max";
            oldValue := VNum (Fin 200); newValue := VNum (Fin 150) |} ];
     shouldDelete := false |}.

Definition sample_db (find_fails : bool) (write_fails : string -> bool)
  : MemDB :=
  {| mem_docs := [ {| doc_id := "c1"; doc_fields := charlie |};
                   {| doc_id := "g1"; doc_fields := grace |};
                   {| doc_id := "a1"; doc_fields := alice |} ];
     mem_status := ∅;
     mem_find_fails := find_fails;
     mem_write_fails := write_fails |}.

Definition sample_clock : Clock :=
  {| startTime := 1000; statusTime := 1040; endTime := 1050 |}.

Definition run_sample (find_fails : bool) (write_fails : string -> bool)
    (this : Checker) : result Report.t * Checker * MemDB :=
  ConsistencyChecker.checkCollection mem_upsert_status MemModel "users"
    sample_clock this (sample_db find_fails write_fails).

(** What the examples look at in the outcome of a scan: the counters, the
    errors and the duration of the report, and the flag left behind. *)
Definition summary (out : result Report.t * Checker * MemDB)
  : option (nat * nat * nat * nat * list string * Z) * bool :=
  (match fst (fst out) with
   | Ok r => Some (Report.totalDocuments r, Report.inconsistenciesFound r,
                   Report.repairsApplied r, Report.documentsDeleted r,
                   Report.errors r, Report.duration r)
   | Throw _ => None
   end, isRunning (snd (fst out))).

Definition already_running : exn :=
  Error "Consistency check already in progress".

(** The number a range check compares with the bounds. *)
Definition numeric_value (v : value) : number := ToNumber (range_value v).

(** No issue object of kind [kind] on field [f]. *)
Definition no_issue (issues : list issue_item) (f kind : string) : Prop :=
  forall i, In (IssueObject i) issues -> ~ (field i = f /\ issue i = kind).

(** *** The repair of what the validator reports, in closed form

    On the issues [validateDocument] produces for [users], only three steps
    of [repairDocument] do anything: the default for a missing [email], the
    default for a [role] outside the allowed values, and the clamping of
    [age]. *)

Definition users_ref : rules_ref := RulesFound users.

Definition missing (v : value) : bool :=
  is_undefined v || is_null v || strict_eq_string v "".

Definition bad_role (v : value) : bool :=
  negb (is_undefined v)
  && negb (includes [VStr "user"; VStr "admin"; VStr "moderator"] v).

Definition below_range (v : value) : bool :=
  negb (is_undefined v) && lt (range_value v) 0.

Definition above_range (v : value) : bool :=
  negb (is_undefined v) && negb (lt (range_value v) 0)
  && gt (range_value v) 150.

Definition email_default : value := VStr "missing@example.com".

Definition set_default_action (f : string) (old new : value) : RepairAction :=
  {| repair_field := f; action := "set_default";
     oldValue := old; newValue := new |}.

Definition clamp_action (a : string) (old : value) (bound : Z)
  : RepairAction :=
  {| repair_field := "age"; action := a;
     oldValue := old; newValue := VNum (Fin bound) |}.

Definition pipeline_state (doc : object) : object * list RepairAction :=
  let st1 :=
    if missing (get doc "email")
    then (set doc "email" email_default,
          [set_default_action "email" VUndefined email_default])
    else (doc, []) in
  let st2 :=
    if bad_role (get doc "role")
    then (set (fst st1) "role" (VStr "user"),
          (snd st1 ++ [set_default_action "role" (get doc "role")
                         (VStr "user")])%list)
    else st1 in
  if below_range (get doc "age")
  then (set (fst st2) "age" (VNum (Fin 0)),
        (snd st2 ++ [clamp_action "clamp_to_min"
                       (range_value (get doc "age")) 0])%list)
  else if above_range (get doc "age")
  then (set (fst st2) "age" (VNum (Fin 150)),
        (snd st2 ++ [clamp_action "clamp_to_max"
                       (range_value (get doc "age")) 150])%list)
  else st2.

(** The predicate of [issues.some] on the [users] rules, as a boolean. *)
Definition irreparable_users (it : issue_item) : bool :=
  match it with
  | IssueObject i =>
      String.eqb (severity i) "high" && String.eqb (issue i) "invalid_value"
      && negb (truthy (default_value users (field i)))
  | IssueString _ => false
  end.

(** [d] agrees with [doc] on every field that no action of [rs] names. *)
Definition frame (doc d : object) (rs : list RepairAction) : Prop :=
  forall f, (forall a, In a rs -> repair_field a <> f) -> d !! f = doc !! f.

(** ** Definitions used to state the further properties *)

Import ConsistencyChecker.

(** The language of a regular expression. *)
Inductive lang : regex -> string -> Prop :=
| lang_eps : lang Eps ""
| lang_class (p : ascii -> bool) (c : ascii) :
    p c = true -> lang (Class p) (String c "")
| lang_seq (r1 r2 : regex) (s1 s2 : string) :
    lang r1 s1 -> lang r2 s2 -> lang (Seq r1 r2) (s1 ++ s2)
| lang_alt_l (r1 r2 : regex) (s : string) :
    lang r1 s -> lang (Alt r1 r2) s
| lang_alt_r (r1 r2 : regex) (s : string) :
    lang r2 s -> lang (Alt r1 r2) s
| lang_star_nil (r : regex) : lang (Star r) ""
| lang_star_more (r : regex) (s1 s2 : string) :
    lang r s1 -> lang (Star r) s2 -> lang (Star r) (s1 ++ s2).

Fixpoint string_forall (p : ascii -> bool) (s : string) : bool :=
  match s with
  | EmptyString => true
  | String c rest => p c && string_forall p rest
  end.

(** A non-empty run of characters that are neither white space nor [@]. *)
Definition email_part (s : string) : bool :=
  negb (String.eqb s "") && string_forall not_space_at s.

Definition signature (i : Issue) : string * string * string :=
  (field i, issue i, severity i).

(** The checks [validateDocument] makes on [users], in the order it makes
    them: field, kind of the issue, severity. *)
Definition check_plan : list (string * string * string) :=
  [ ("name", "missing_required_field", "high");
    ("email", "missing_required_field", "high");
    ("name", "invalid_type", "medium");
    ("email", "invalid_type", "medium");
    ("age", "invalid_type", "medium");
    ("role", "invalid_type", "medium");
    ("isActive", "invalid_type", "medium");
    ("role", "invalid_value", "high");
    ("age", "out_of_range", "medium");
    ("email", "custom_validation_failed", "medium") ].

(** What [validateDocument] accepts, stated on each field of the [users]
    rules. *)
Definition name_ok (v : value) : bool :=
  match v with
  | VStr s => negb (String.eqb s "")
  | _ => false
  end.

Definition email_ok (v : value) : bool :=
  name_ok v && test emailRegex v.

Definition in_age_range (n : number) : bool :=
  match n with
  | NaN => true
  | Fin z => Z.leb 0 z && Z.leb z 150
  end.

Definition age_ok (v : value) : bool :=
  match v with
  | VUndefined => true
  | VNum n => in_age_range n
  | VStr s => negb (isNaN (parseInt s)) && in_age_range (parseInt s)
  | _ => false
  end.

Definition role_ok (v : value) : bool :=
  match v with
  | VUndefined => true
  | VStr s =>
      String.eqb s "user" || String.eqb s "admin" || String.eqb s "moderator"
  | _ => false
  end.

Definition isActive_ok (v : value) : bool :=
  match v with
  | VUndefined | VBool _ => true
  | _ => false
  end.

Definition conforms (doc : object) : bool :=
  name_ok (get doc "name") && email_ok (get doc "email")
  && age_ok (get doc "age") && role_ok (get doc "role")
  && isActive_ok (get doc "isActive").

Definition ruled_fields : list string :=
  ["name"; "email"; "age"; "role"; "isActive"].

(** The last action of [rs] that names field [f]. *)
Definition last_action_on (f : string) (rs : list RepairAction)
  : option RepairAction :=
  last (List.filter (fun a => String.eqb (repair_field a) f) rs).

Definition records_final_values (d : object) (rs : list RepairAction)
  : Prop :=
  forall f a, last_action_on f rs = Some a -> get d f = newValue a.

(** The repairs [repairDocument] makes on what [validateDocument] reports
    for [users], in the order it can make them: field and action. *)
Definition repair_plan : list (string * string) :=
  [ ("email", "set_default"); ("role", "set_default");
    ("age", "clamp_to_min"); ("age", "clamp_to_max") ].

Definition repair_signature (a : RepairAction) : string * string :=
  (repair_field a, action a).

Definition with_delete {DB : Type} (del : string -> DB -> result DB)
    (M : Model DB) : Model DB :=
  {| find := find M;
     findByIdAndDelete := del;
     findByIdAndUpdate := findByIdAndUpdate M |}.

(** Counters before and after one document. *)
Definition counted (r r' : Report.t) : Prop :=
  Report.totalDocuments r' = Report.totalDocuments r
  /\ Report.documentsDeleted r' = Report.documentsDeleted r
  /\ (Report.inconsistenciesFound r <= Report.inconsistenciesFound r')%nat
  /\ (Report.repairsApplied r' + Report.inconsistenciesFound r
      <= Report.repairsApplied r + Report.inconsistenciesFound r')%nat
  /\ (length (Report.errors r') <= S (length (Report.errors r)))%nat.

(** The report a scan leaves, whatever its outcome. *)
Definition scan_report {DB : Type}
    (out : result Report.t * Checker * DB) : option Report.t :=
  match fst (fst out) with
  | Ok report => Some report
  | Throw _ => None
  end.

(** The report of a scan over [docs] in a collection without rules, before
    the duration is stamped: one unrepaired issue per document. *)
Definition unruled_report (collectionName : string) (clock : Clock)
    (docs : list Doc) : Report.t :=
  {| Report.timestamp := startTime clock;
     Report.collection := collectionName;
     Report.totalDocuments := length docs;
     Report.inconsistenciesFound := length docs;
     Report.repairsApplied := 0;
     Report.documentsDeleted := 0;
     Report.errors := [];
     Report.details :=
       map (fun d => Report.Summary (doc_id d) "unrepaired_issues" "none" "")
           docs;
     Report.duration := 0 |}.

(** The report of a scan over [docs] under a collection name inherited from
    [Object.prototype]: one error per document. *)
Definition faulted_report (collectionName : string) (clock : Clock)
    (docs : list Doc) : Report.t :=
  {| Report.timestamp := startTime clock;
     Report.collection := collectionName;
     Report.totalDocuments := length docs;
     Report.inconsistenciesFound := 0;
     Report.repairsApplied := 0;
     Report.documentsDeleted := 0;
     Report.errors :=
       map (fun d => "Error processing document " ++ doc_id d ++ ": "
                     ++ exn_message (TypeError "forEach")) docs;
     Report.details := [];
     Report.duration := 0 |}.

(** The report of a scan over [docs] that all satisfy the rules, before the
    duration is stamped. *)
Definition clean_report (collectionName : string) (clock : Clock)
    (docs : list Doc) : Report.t :=
  {| Report.timestamp := startTime clock;
     Report.collection := collectionName;
     Report.totalDocuments := length docs;
     Report.inconsistenciesFound := 0;
     Report.repairsApplied := 0;
     Report.documentsDeleted := 0;
     Report.errors := [];
     Report.details := [];
     Report.duration := 0 |}.

Definition conforming_db : MemDB :=
  {| mem_docs := [ {| doc_id := "c1"; doc_fields := charlie |};
                   {| doc_id := "l1"; doc_fields := luke |} ];
     mem_status := ∅;
     mem_find_fails := false;
     mem_write_fails := fun _ => false |}.

(** Lookup of a status record in the in-memory collection. *)
Definition mem_find_status (c : string) (db : MemDB)
  : result (option Status.t) :=
  Ok (mem_status db !! c).

Definition repaired_report : Report.t :=
  {| Report.timestamp := 0; Report.collection := "users";
     Report.totalDocuments := 3; Report.inconsistenciesFound := 3;
     Report.repairsApplied := 3; Report.documentsDeleted := 0;
     Report.errors := []; Report.details := []; Report.duration := 0 |}.

(** Calls of [checkCollection] made one after the other on the same
    checker, each with its collection name and its clock readings. *)
Fixpoint run_scans {DB : Type}
    (Status_findOneAndUpdate : string -> Status.t -> DB -> result DB)
    (M : Model DB) (calls : list (string * Clock)) (this : Checker) (db : DB)
  : list (result Report.t) * Checker * DB :=
  match calls with
  | [] => ([], this, db)
  | (collectionName, clock) :: rest =>
      let '(res, this1, db1) :=
        checkCollection Status_findOneAndUpdate M collectionName clock
          this db in
      let '(results, this2, db2) :=
        run_scans Status_findOneAndUpdate M rest this1 db1 in
      (res :: results, this2, db2)
  end.

Definition returned {A : Type} (r : result A) : bool :=
  match r with Ok _ => true | Throw _ => false end.

(** *** A scan among other requests

    [checkCollection] is asynchronous: at each [await] it hands control back,
    and the requests that have arrived meanwhile run on the same checker
    before the scan resumes.  It awaits the listing of the documents, each
    deletion or update, and the storing of the status.  A call of
    [checkCollection] that arrives is run as in [run_scans]; the model serves
    it to its end before the scan resumes, which is what happens when it is
    turned away at entry. *)

(** The places where [checkCollection] waits for the storage, and other
    requests get to run. *)
Inductive await_point : Type :=
| AwaitFind
| AwaitWrite (n : nat)
| AwaitStatus.

Section Interleaved.
Context {DB : Type}.
Variable Status_findOneAndUpdate : string -> Status.t -> DB -> result DB.
Variable M : Model DB.
(** The calls [checkCollection(name, Model)] that other requests make on the
    same checker while the scan waits at each point. *)
Variable arrivals : await_point -> list (string * Clock).

(** The state of a scan in progress: the checker, the storage, and the
    answers given so far to the requests that arrived. *)
Definition in_progress : Type := Checker * DB * list (result Report.t).

(** What happens while the scan waits at [p]: the requests that arrive are
    served, in turn, on the checker and the storage as they are. *)
Definition wait (p : await_point) (st : in_progress) : in_progress :=
  let '(this, db, answers) := st in
  let '(more, this', db') :=
    run_scans Status_findOneAndUpdate M (arrivals p) this db in
  (this', db', (answers ++ more)%list).

Variable collectionName : string.

(** The body of the inner [try] for the [n]-th document, with the wait at
    its one [await]. *)
Definition check_document_among (n : nat) (doc : Doc) (report : Report.t)
    (st : in_progress) : Report.t * in_progress * option exn :=
  let '(this, db, answers) := st in
  match validateDocument doc.(doc_fields) collectionName with
  | Throw e => (report, st, Some e)
  | Ok issues =>
      if (0 <? length issues)%nat then
        let report := add_inconsistencies (length issues) report in
        match repairDocument doc.(doc_fields) issues collectionName with
        | Throw e => (report, st, Some e)
        | Ok repairResult =>
            if repairResult.(shouldDelete) then
              match findByIdAndDelete M doc.(doc_id) db with
              | Throw e => (report, wait (AwaitWrite n) st, Some e)
              | Ok db' =>
                  (push_details
                     [Report.Summary doc.(doc_id) "irreparable_document"
                        "deleted" (joined_descriptions issues)]
                     (add_deleted 1 report),
                   wait (AwaitWrite n) (this, db', answers), None)
              end
            else if (0 <? length repairResult.(repairs))%nat then
              match findByIdAndUpdate M doc.(doc_id)
                      repairResult.(document) db with
              | Throw e => (report, wait (AwaitWrite n) st, Some e)
              | Ok db' =>
                  (push_details
                     (map (fun repair =>
                             Report.Repaired doc.(doc_id)
                               (repair.(repair_field) ++ ": "
                                ++ repair.(action))
                               "repaired"
                               repair.(oldValue) repair.(newValue))
                          repairResult.(repairs))
                     (add_repairs (length repairResult.(repairs)) report),
                   wait (AwaitWrite n) (this, db', answers), None)
              end
            else
              (push_details
                 [Report.Summary doc.(doc_id) "unrepaired_issues" "none"
                    (joined_descriptions issues)]
                 report, st, None)
        end
      else (report, st, None)
  end.

(** The loop over the documents, from the [n]-th on. *)
Fixpoint process_documents_among (n : nat) (documents : list Doc)
    (report : Report.t) (st : in_progress) : Report.t * in_progress :=
  match documents with
  | [] => (report, st)
  | doc :: rest =>
      let '(report', st', failure) :=
        check_document_among n doc report st in
      let report'' :=
        match failure with
        | None => report'
        | Some docError =>
            push_error
              ("Error processing document " ++ doc.(doc_id) ++ ": "
               ++ exn_message docError) report'
        end in
      process_documents_among (S n) rest report'' st'
  end.

(** The outer [try] and its [catch], with the waits. *)
Definition scan_among (clock : Clock) (st : in_progress)
  : Report.t * in_progress :=
  let '(this, db, answers) := st in
  let report := empty_report collectionName clock.(startTime) in
  match find M db with
  | Throw error =>
      (push_error ("Consistency check failed: " ++ exn_message error)
         report, wait AwaitFind st)
  | Ok documents =>
      let report := with_totalDocuments (length documents) report in
      let '(report, (this', db', answers')) :=
        process_documents_among 0 documents report (wait AwaitFind st) in
      (report,
       wait AwaitStatus
         (this',
          updateConsistencyStatus Status_findOneAndUpdate collectionName
            report clock.(statusTime) db',
          answers'))
  end.

(** [checkCollection] among other requests: what it returns or throws, the
    answers the requests that arrived meanwhile got, and the checker and the
    storage left behind. *)
Definition checkCollection_among (clock : Clock) (this : Checker) (db : DB)
  : result Report.t * list (result Report.t) * Checker * DB :=
  match enter this with
  | Throw e => (Throw e, [], this, db)
  | Ok this1 =>
      let '(report, (this2, db', answers)) :=
        scan_among clock (this1, db, []) in
      let report :=
        with_duration (clock.(endTime) - clock.(startTime)) report in
      (Ok report, answers, leave this2, db')
  end.
End Interleaved.

Definition rejected {A : Type} (r : result A) : Prop :=
  r = Throw already_running.

(** A request arrives at every wait of the sample scan. *)
Definition sample_arrivals (p : await_point) : list (string * Clock) :=
  match p with
  | AwaitFind => [("users", sample_clock); ("orders", sample_clock)]
  | AwaitWrite _ => [("users", sample_clock)]
  | AwaitStatus => [("users", sample_clock)]
  end.

(** A value that is [undefined], [null], a boolean, a number
    or a string. *)
Definition scalar (v : value) : bool :=
  match v with
  | VObject _ _ _ => false
  | _ => true
  end.

(** The issues on which the [forEach] of [repairDocument] reads [rules]. *)
Definition repair_reads_rules (it : issue_item) : bool :=
  match it with
  | IssueObject i =>
      String.eqb (issue i) "missing_required_field"
      || (String.eqb (issue i) "invalid_value" && String.eqb (field i) "role")
      || (String.eqb (issue i) "out_of_range" && String.eqb (field i) "age")
  | IssueString _ => false
  end.

(** The issues on which the predicate of [issues.some] reads [rules]. *)
Definition verdict_reads_rules (it : issue_item) : bool :=
  match it with
  | IssueObject i =>
      String.eqb (severity i) "high" && String.eqb (issue i) "invalid_value"
  | IssueString _ => false
  end.

Definition reads_rules (it : issue_item) : bool :=
  repair_reads_rules it || verdict_reads_rules it.

Definition without_rules (rules : rules_ref) : Prop :=
  forall r, rules <> RulesFound r.

Definition bob_issues : list issue_item :=
  [IssueObject
     {| field := "email"; issue := "missing_required_field";
        severity := "high";
        description := "Required field 'email' is missing or empty" |}].

(** * Properties *)

Import ConsistencyChecker.

(** ** Property reads and writes *)

Lemma get_set_ne (o : object) (k k' : string) (v : value) :
  k <> k' -> get (set o k v) k' = get o k'.
Proof.
  intros Hne. unfold get, set.
  destruct (String.eqb k "__proto__" && bool_decide (o !! k = None)); [done|].
  by rewrite lookup_insert_ne.
Qed.

Lemma get_set_eq (o : object) (k : string) (v : value) :
  k <> "__proto__" -> get (set o k v) k = v.
Proof.
  intros Hne. unfold get, set.
  destruct (String.eqb_spec k "__proto__") as [->|_]; [done|].
  cbn. by rewrite lookup_insert_eq.
Qed.

Lemma lookup_set_ne (o : object) (k k' : string) (v : value) :
  k <> k' -> set o k v !! k' = o !! k'.
Proof.
  intros Hne. unfold set.
  destruct (String.eqb k "__proto__" && bool_decide (o !! k = None)); [done|].
  by rewrite lookup_insert_ne.
Qed.

(** ** parseInt *)

Lemma append_nil_l (s : string) : "" ++ s = s.
Proof. reflexivity. Qed.

Lemma append_cons (c : ascii) (s t : string) :
  String c s ++ t = String c (s ++ t).
Proof. reflexivity. Qed.

Lemma digits_prefix_Some (s : string) (a : Z) :
  exists n, digits_prefix s (Some a) = Some n.
Proof.
  revert a. induction s as [|c s IH]; intros a; cbn [digits_prefix]; [eauto|].
  destruct (digit_value c); eauto.
Qed.

Lemma digit_value_spec (c : ascii) (d : Z) :
  digit_value c = Some d -> d = Z.of_nat (nat_of_ascii c) - 48.
Proof.
  unfold digit_value. case_match; congruence.
Qed.

Lemma digits_prefix_decimal (ds rest : string) (a : Z) :
  all_digits ds = true -> no_leading_digit rest = true ->
  digits_prefix (ds ++ rest) (Some a) = Some (decimal_from ds a).
Proof.
  revert a. induction ds as [|c ds IH]; intros a Hd Hr;
    rewrite ?append_nil_l, ?append_cons;
    cbn [digits_prefix all_digits decimal_from] in *.
  - destruct rest as [|c r]; [done|].
    cbn [digits_prefix no_leading_digit] in *. unfold is_digit in Hr.
    destruct (digit_value c); [discriminate Hr | reflexivity].
  - apply andb_prop in Hd as [Hc Hd]. unfold is_digit in Hc.
    destruct (digit_value c) as [d|] eqn:E; [|done].
    apply digit_value_spec in E as ->. by apply IH.
Qed.

Lemma digit_not_whitespace (c : ascii) :
  is_digit c = true -> is_whitespace c = false.
Proof.
  unfold is_digit, digit_value, is_whitespace.
  destruct (andb (48 <=? _)%nat _) eqn:E; [|done]. intros _.
  apply andb_prop in E as [E1 E2].
  apply Nat.leb_le in E1. apply Nat.leb_le in E2.
  repeat (apply orb_false_intro); try apply andb_false_intro2;
    first [apply Nat.leb_gt | apply Nat.eqb_neq]; lia.
Qed.

Lemma digit_not_sign (c : ascii) :
  is_digit c = true -> c <> "-"%char /\ c <> "+"%char.
Proof.
  intros H; split; intros ->; vm_compute in H; discriminate.
Qed.

(** A string that starts with a digit parses to a number. *)
Lemma parseInt_digit_start (c : ascii) (rest : string) :
  is_digit c = true -> exists n, parseInt (String c rest) = Fin n.
Proof.
  intros Hc. unfold parseInt. cbn [trim_start].
  rewrite (digit_not_whitespace c Hc).
  destruct (digit_not_sign c Hc) as [Hm Hp].
  assert (Hpre : exists n, digits_prefix (String c rest) None = Some n).
  { cbn [digits_prefix]. unfold is_digit in Hc.
    destruct (digit_value c); [|done]. apply digits_prefix_Some. }
  destruct Hpre as [n Hn].
  destruct c as [[] [] [] [] [] [] [] []]; try (rewrite Hn; eauto); congruence.
Qed.

Lemma parseInt_digits (ds rest : string) :
  ds <> "" -> all_digits ds = true -> no_leading_digit rest = true ->
  parseInt (ds ++ rest) = Fin (decimal ds).
Proof.
  intros Hne Hd Hr. destruct ds as [|c ds]; [done|].
  cbn [all_digits] in Hd. apply andb_prop in Hd as [Hc Hd].
  unfold parseInt. rewrite append_cons. cbn [trim_start].
  rewrite (digit_not_whitespace c Hc).
  destruct (digit_not_sign c Hc) as [Hm Hp].
  assert (Hpre : digits_prefix (String c (ds ++ rest)) None
                 = Some (decimal (String c ds))).
  { cbn [digits_prefix]. unfold is_digit in Hc.
    destruct (digit_value c) as [d|] eqn:E; [|done].
    apply digit_value_spec in E as ->. unfold decimal.
    cbn [decimal_from default]. by apply digits_prefix_decimal. }
  destruct c as [[] [] [] [] [] [] [] []];
    try (rewrite Hpre; f_equal; lia); congruence.
Qed.

Lemma trim_start_whitespace (ws s : string) :
  all_whitespace ws = true -> trim_start (ws ++ s) = trim_start s.
Proof.
  induction ws as [|c ws IH]; [done|].
  cbn [all_whitespace]. intros [Hc Hws]%andb_prop.
  rewrite append_cons. cbn [trim_start]. rewrite Hc. by apply IH.
Qed.

Lemma digits_prefix_start (c : ascii) (rest : string) :
  is_digit c = true -> exists n, digits_prefix (String c rest) None = Some n.
Proof.
  intros Hc. cbn [digits_prefix]. unfold is_digit in Hc.
  destruct (digit_value c); [|done]. apply digits_prefix_Some.
Qed.

Lemma digits_prefix_value (c : ascii) (ds rest : string) :
  is_digit c = true -> all_digits ds = true -> no_leading_digit rest = true ->
  digits_prefix (String c (ds ++ rest)) None = Some (decimal (String c ds)).
Proof.
  intros Hc Hd Hr. cbn [digits_prefix]. unfold is_digit in Hc.
  destruct (digit_value c) as [d|] eqn:E; [|done].
  apply digit_value_spec in E as ->. unfold decimal.
  cbn [decimal_from default]. by apply digits_prefix_decimal.
Qed.

(** [parseInt] on leading white space, an optional sign and a digit: in
    terms of the digits read. *)
Lemma parseInt_signed (ws sg : string) (c : ascii) (rest : string) :
  all_whitespace ws = true -> optional_sign sg = true -> is_digit c = true ->
  parseInt (ws ++ sg ++ String c rest)
  = match digits_prefix (String c rest) None with
    | Some n => Fin (sign_factor sg * n)
    | None => NaN
    end.
Proof.
  intros Hws Hsg Hc. unfold parseInt.
  rewrite (trim_start_whitespace ws _ Hws).
  pose proof (digit_not_whitespace c Hc) as Hnw.
  destruct (digit_not_sign c Hc) as [Hm Hp].
  unfold optional_sign in Hsg.
  destruct (String.eqb_spec sg "") as [->|_].
  { rewrite append_nil_l. cbn [trim_start]. rewrite Hnw.
    destruct c as [[] [] [] [] [] [] [] []]; try reflexivity; congruence. }
  destruct (String.eqb_spec sg "+") as [->|_]; [reflexivity|].
  destruct (String.eqb_spec sg "-") as [->|_]; [reflexivity|].
  discriminate Hsg.
Qed.

Example parseInt_42abc : parseInt "42abc" = Fin 42.
Proof. reflexivity. Qed.

Example parseInt_signed_prefixes :
  parseInt "-12px" = Fin (-12) /\ parseInt "+5" = Fin 5
  /\ parseInt "  42abc" = Fin 42 /\ parseInt "abc42" = NaN
  /\ parseInt "- 5" = NaN /\ parseInt "" = NaN.
Proof. repeat split. Qed.

(** ** The repair of validator output

    How far [cbn] unfolds the operations of [JS] in the proofs below. *)

#[local] Arguments get : simpl never.
#[local] Arguments set : simpl never.
#[local] Arguments parseInt : simpl never.
#[local] Arguments test : simpl never.
#[local] Arguments Number_toString : simpl never.
#[local] Arguments String.eqb !_ !_.
#[local] Arguments typeof !_.
#[local] Arguments ToString !_.
#[local] Arguments ToNumber !_.
#[local] Arguments includes _ !_.
#[local] Arguments lt !_ _.
#[local] Arguments gt !_ _.
#[local] Arguments isNaN !_.
#[local] Arguments range_value !_.

Lemma repair_all_app rules document (l1 l2 : list issue_item) st :
  repair_all rules document (l1 ++ l2) st
  = bind (repair_all rules document l1 st) (repair_all rules document l2).
Proof.
  revert st. induction l1 as [|i l1 IH]; intros st; cbn; [done|].
  destruct (repair_step rules document st i); cbn; [apply IH|done].
Qed.

Lemma seg_required (doc : object) (st : object * list RepairAction) :
  repair_all users_ref doc (map IssueObject (check_required users doc)) st
  = Ok (if missing (get doc "email")
        then (set (fst st) "email" email_default,
              (snd st ++ [set_default_action "email" VUndefined email_default])%list)
        else st).
Proof.
  destruct st as [d rs]. unfold check_required, missing. cbn.
  destruct (_ || _ || strict_eq_string (get doc "name") "");
    destruct (_ || _ || strict_eq_string (get doc "email") ""); reflexivity.
Qed.

Ltac in_cases H :=
  repeat match type of H with
  | In _ (_ ++ _) => apply in_app_or in H; destruct H as [H|H]
  | In _ [] => destruct H
  | In _ (_ :: _) => destruct H as [H|H]
  | In _ (if ?b then _ else _) => destruct b eqn:?
  end.

Lemma repair_all_noop rules document (l : list issue_item) st :
  (forall i, In i l -> repair_step rules document st i = Ok st) ->
  repair_all rules document l st = Ok st.
Proof.
  induction l as [|i l IH]; intros H; cbn; [done|].
  rewrite H by (by left). cbn. apply IH. intros j Hj. apply H. by right.
Qed.

Lemma seg_types (doc : object) (st : object * list RepairAction) :
  get (fst st) "age" = get doc "age" ->
  repair_all users_ref doc (map IssueObject (check_types users doc)) st = Ok st.
Proof.
  destruct st as [d rs]. cbn [fst]. intros Hage.
  apply repair_all_noop. intros it Hit.
  apply in_map_iff in Hit as (i & <- & Hi).
  unfold check_types in Hi. cbn in Hi. in_cases Hi; subst i; cbn;
    try reflexivity.
  - rewrite Hage, Heqb0. cbn. by rewrite Heqb1.
  - by rewrite Hage, Heqb0.
Qed.

Lemma seg_custom (doc : object) (st : object * list RepairAction) :
  repair_all users_ref doc (map IssueObject (check_custom users doc)) st = Ok st.
Proof.
  destruct st as [d rs].
  apply repair_all_noop. intros it Hit.
  apply in_map_iff in Hit as (i & <- & Hi).
  unfold check_custom in Hi. cbn in Hi. in_cases Hi; subst i; reflexivity.
Qed.

Lemma seg_allowed (doc : object) (st : object * list RepairAction) :
  repair_all users_ref doc (map IssueObject (check_allowed users doc)) st
  = Ok (if bad_role (get doc "role")
        then (set (fst st) "role" (VStr "user"),
              (snd st ++ [set_default_action "role" (get doc "role")
                            (VStr "user")])%list)
        else st).
Proof.
  destruct st as [d rs]. unfold check_allowed, bad_role. cbn.
  destruct (negb (is_undefined _)); [|reflexivity]. cbn.
  destruct (negb (includes _ _)); reflexivity.
Qed.

Lemma seg_ranges (doc : object) (st : object * list RepairAction) :
  get (fst st) "age" = get doc "age" ->
  repair_all users_ref doc (map IssueObject (check_ranges users doc)) st
  = Ok (if below_range (get doc "age")
        then (set (fst st) "age" (VNum (Fin 0)),
              (snd st ++ [clamp_action "clamp_to_min"
                            (range_value (get doc "age")) 0])%list)
        else if above_range (get doc "age")
        then (set (fst st) "age" (VNum (Fin 150)),
              (snd st ++ [clamp_action "clamp_to_max"
                            (range_value (get doc "age")) 150])%list)
        else st).
Proof.
  destruct st as [d rs]. cbn [fst snd]. intros Hage.
  unfold check_ranges, below_range, above_range. cbn.
  destruct (negb (is_undefined _)); [|reflexivity].
  destruct (lt (range_value (get doc "age")) 0) eqn:Hlt;
    destruct (gt (range_value (get doc "age")) 150) eqn:Hgt; cbn;
    rewrite ?Hage, ?Hlt, ?Hgt; reflexivity.
Qed.

Lemma pipeline_repair_all (doc : object) :
  repair_all users_ref doc (map IssueObject (validate_with users doc)) (doc, [])
  = Ok (pipeline_state doc).
Proof.
  unfold validate_with. rewrite !map_app.
  rewrite repair_all_app, seg_required. cbn [bind fst snd app].
  rewrite repair_all_app, seg_types
    by (destruct (missing _); [by apply get_set_ne|done]).
  cbn [bind]. rewrite repair_all_app, seg_allowed. cbn [bind].
  rewrite repair_all_app, seg_ranges.
  2:{ destruct (missing _), (bad_role _); cbn [fst];
      rewrite ?get_set_ne by done; done. }
  cbn [bind]. rewrite seg_custom. reflexivity.
Qed.

Lemma some_irreparable_false rules (l : list issue_item) :
  (forall i, In i l -> irreparable rules i = Ok false) ->
  some_irreparable rules l = Ok false.
Proof.
  induction l as [|i l IH]; intros H; cbn; [done|].
  rewrite H by (by left). cbn. apply IH. intros j Hj. apply H. by right.
Qed.

Lemma pipeline_never_irreparable (doc : object) :
  some_irreparable users_ref (map IssueObject (validate_with users doc)) = Ok false.
Proof.
  apply some_irreparable_false. intros it Hit.
  apply in_map_iff in Hit as (i & <- & Hi).
  unfold validate_with, check_required, check_types, check_allowed,
    check_ranges, check_custom in Hi.
  cbn in Hi. in_cases Hi; subst i; reflexivity.
Qed.

Lemma pipeline_repair (doc : object) :
  repairDocument doc (map IssueObject (validate_with users doc)) "users"
  = Ok {| document := fst (pipeline_state doc);
          repairs := snd (pipeline_state doc);
          shouldDelete := false |}.
Proof.
  unfold repairDocument, repair_with. change (rules_for "users") with users_ref.
  rewrite pipeline_repair_all. cbn [bind].
  rewrite pipeline_never_irreparable. reflexivity.
Qed.

Lemma pipeline_get_name (doc : object) :
  get (fst (pipeline_state doc)) "name" = get doc "name".
Proof.
  unfold pipeline_state.
  destruct (missing (get doc "email")), (bad_role (get doc "role")),
    (below_range (get doc "age")), (above_range (get doc "age"));
    cbn [fst]; rewrite ?get_set_ne by done; reflexivity.
Qed.

Lemma pipeline_get_isActive (doc : object) :
  get (fst (pipeline_state doc)) "isActive" = get doc "isActive".
Proof.
  unfold pipeline_state.
  destruct (missing (get doc "email")), (bad_role (get doc "role")),
    (below_range (get doc "age")), (above_range (get doc "age"));
    cbn [fst]; rewrite ?get_set_ne by done; reflexivity.
Qed.

Lemma pipeline_get_email (doc : object) :
  get (fst (pipeline_state doc)) "email"
  = if missing (get doc "email") then email_default else get doc "email".
Proof.
  unfold pipeline_state.
  destruct (missing (get doc "email")), (bad_role (get doc "role")),
    (below_range (get doc "age")), (above_range (get doc "age"));
    cbn [fst]; rewrite ?get_set_ne by done; rewrite ?get_set_eq by done;
    reflexivity.
Qed.

Lemma pipeline_get_role (doc : object) :
  get (fst (pipeline_state doc)) "role"
  = if bad_role (get doc "role") then VStr "user" else get doc "role".
Proof.
  unfold pipeline_state.
  destruct (missing (get doc "email")), (bad_role (get doc "role")),
    (below_range (get doc "age")), (above_range (get doc "age"));
    cbn [fst]; rewrite ?get_set_ne by done; rewrite ?get_set_eq by done;
    reflexivity.
Qed.

Lemma pipeline_get_age (doc : object) :
  get (fst (pipeline_state doc)) "age"
  = if below_range (get doc "age") then VNum (Fin 0)
    else if above_range (get doc "age") then VNum (Fin 150)
    else get doc "age".
Proof.
  unfold pipeline_state.
  destruct (missing (get doc "email")), (bad_role (get doc "role")),
    (below_range (get doc "age")), (above_range (get doc "age"));
    cbn [fst]; rewrite ?get_set_eq by done; rewrite ?get_set_ne by done;
    reflexivity.
Qed.

Lemma email_default_valid : test emailRegex email_default = true.
Proof. vm_compute. reflexivity. Qed.

Lemma validate_repaired_incl (doc : object) :
  incl (validate_with users (fst (pipeline_state doc)))
       (validate_with users doc).
Proof.
  unfold validate_with, check_required, check_types, check_allowed,
    check_ranges, check_custom.
  cbn [flat_map requiredFields fieldTypes allowedValues valueRanges
       customValidations users app].
  repeat apply incl_app_app; try apply incl_refl;
    rewrite ?pipeline_get_name, ?pipeline_get_isActive, ?pipeline_get_email,
      ?pipeline_get_role, ?pipeline_get_age;
    try apply incl_refl.
  all: try (destruct (missing (get doc "email")) eqn:Hm;
            [rewrite ?email_default_valid; cbn; apply incl_nil_l
            |apply incl_refl]).
  all: try (destruct (bad_role (get doc "role")) eqn:Hr;
            [cbn; apply incl_nil_l | apply incl_refl]).
  all: destruct (below_range (get doc "age")) eqn:Hb;
         [cbn; apply incl_nil_l|];
       (destruct (above_range (get doc "age")) eqn:Ha;
         [cbn; apply incl_nil_l | apply incl_refl]).
Qed.

Lemma missing_repaired_email (v : value) :
  missing (if missing v then email_default else v) = false.
Proof. destruct (missing v) eqn:E; [reflexivity | exact E]. Qed.

Lemma bad_role_repaired (v : value) :
  bad_role (if bad_role v then VStr "user" else v) = false.
Proof. destruct (bad_role v) eqn:E; [reflexivity | exact E]. Qed.

Lemma range_repaired (v : value) :
  let v' := if below_range v then VNum (Fin 0)
            else if above_range v then VNum (Fin 150) else v in
  below_range v' = false /\ above_range v' = false.
Proof.
  cbn zeta. destruct (below_range v) eqn:Hb; [by split|].
  destruct (above_range v) eqn:Ha; by split.
Qed.

Lemma pipeline_fixed (doc : object) :
  pipeline_state (fst (pipeline_state doc)) = (fst (pipeline_state doc), []).
Proof.
  unfold pipeline_state at 1.
  rewrite pipeline_get_email, pipeline_get_role, pipeline_get_age.
  rewrite missing_repaired_email, bad_role_repaired.
  destruct (range_repaired (get doc "age")) as [-> ->]. reflexivity.
Qed.

(** ** The frame of a repair *)

Lemma frame_set (doc d : object) (rs : list RepairAction) (a : RepairAction)
    (v : value) :
  frame doc d rs -> frame doc (set d (repair_field a) v) (rs ++ [a]).
Proof.
  intros Hfr f Hf.
  rewrite lookup_set_ne.
  - apply Hfr. intros b Hb. apply Hf, in_or_app. by left.
  - apply Hf, in_or_app. right. by left.
Qed.

Lemma bind_Ok {A B : Type} (m : result A) (k : A -> result B) (b : B) :
  bind m k = Ok b -> exists a, m = Ok a /\ k a = Ok b.
Proof. destruct m; cbn; [eauto | discriminate]. Qed.

Lemma repair_issue_frame rules doc st i st' :
  frame doc (fst st) (snd st) ->
  repair_issue rules doc st i = Ok st' ->
  frame doc (fst st') (snd st').
Proof.
  destruct st as [d rs]. cbn [fst snd]. intros Hfr.
  unfold repair_issue.
  repeat first
    [ case_match
    | match goal with
      | |- bind _ _ = Ok _ -> _ =>
          let Hb := fresh "Hb" in
          intros Hb; apply bind_Ok in Hb as (? & ? & Hb); revert Hb
      end ];
    intros [= <-]; cbn [fst snd]; try assumption.
  all: try (match goal with
            | |- frame _ (set _ ?f _) (_ ++ [?a]) =>
                change f with (repair_field a); by apply frame_set
            end).
Qed.

Lemma repair_all_frame rules doc (issues : list issue_item) st st' :
  frame doc (fst st) (snd st) ->
  repair_all rules doc issues st = Ok st' ->
  frame doc (fst st') (snd st').
Proof.
  revert st. induction issues as [|it issues IH]; intros st Hfr; cbn.
  - by intros [= <-].
  - intros H. apply bind_Ok in H as (st1 & Hstep & H).
    apply (IH st1); [|exact H].
    destruct it as [i|s]; cbn in Hstep.
    + by apply (repair_issue_frame rules doc st i).
    + by injection Hstep as <-.
Qed.

Lemma repair_all_users_total doc (issues : list issue_item) st :
  exists st', repair_all users_ref doc issues st = Ok st'.
Proof.
  revert st. induction issues as [|it issues IH]; intros st; cbn; [eauto|].
  assert (Hstep : exists st1, repair_step users_ref doc st it = Ok st1).
  { destruct it as [i|s]; cbn; [|eauto]. destruct st as [d rs].
    unfold repair_issue, users_ref, rules_defaultValues, rules_valueRanges.
    cbn [bind valueRanges users own].
    repeat (case_match; cbn [bind]); eauto; congruence. }
  destruct Hstep as [st1 ->]. cbn. apply IH.
Qed.

Lemma some_irreparable_users (issues : list issue_item) :
  some_irreparable users_ref issues = Ok (existsb irreparable_users issues).
Proof.
  induction issues as [|it issues IH]; cbn; [done|].
  destruct it as [i|s]; cbn; [|exact IH].
  destruct (String.eqb (severity i) "high" && String.eqb (issue i) "invalid_value");
    cbn; [|exact IH].
  destruct (negb (truthy _)); cbn; [done|exact IH].
Qed.

Lemma repairDocument_users_total doc (issues : list issue_item) :
  exists r, repairDocument doc issues "users" = Ok r.
Proof.
  unfold repairDocument, repair_with. change (rules_for "users") with users_ref.
  destruct (repair_all_users_total doc issues (doc, [])) as [st ->].
  cbn [bind]. rewrite some_irreparable_users. cbn. eauto.
Qed.

(** What [shouldDelete] computes on the [users] rules: some issue of high
    severity and kind [invalid_value] names a field whose entry in
    [defaultValues] is falsy. *)
Lemma shouldDelete_users doc (issues : list issue_item) (r : RepairResult) :
  repairDocument doc issues "users" = Ok r ->
  (shouldDelete r = true <->
   exists i, In (IssueObject i) issues /\ severity i = "high"
             /\ issue i = "invalid_value"
             /\ truthy (default_value users (field i)) = false).
Proof.
  unfold repairDocument, repair_with. change (rules_for "users") with users_ref.
  intros H. apply bind_Ok in H as (st & _ & H).
  rewrite some_irreparable_users in H. cbn in H. injection H as <-.
  cbn [shouldDelete]. rewrite existsb_exists. split.
  - intros ([i|s] & Hin & Hi); [|done]. cbn in Hi.
    apply andb_prop in Hi as [Hi Hd]. apply andb_prop in Hi as [Hs Hk].
    exists i. repeat split; [done|by apply String.eqb_eq..|].
    by destruct (truthy _).
  - intros (i & Hin & Hs & Hk & Hd). exists (IssueObject i). split; [done|].
    cbn. rewrite Hs, Hk, Hd. reflexivity.
Qed.

Lemma rules_for_found (collection : string) (rules : RuleSet) :
  rules_for collection = RulesFound rules ->
  collection = "users" /\ rules = users.
Proof.
  unfold rules_for, validationRules. cbn [own].
  destruct (String.eqb_spec collection "users") as [->|_].
  - intros H. split; [reflexivity | congruence].
  - by destruct (inherited collection).
Qed.

Lemma validateDocument_users (doc : object) :
  validateDocument doc "users" = Ok (map IssueObject (validate_with users doc)).
Proof. reflexivity. Qed.

(** ** Numeric strings (C10, C2)

    C10.  Parsing of a numeric string is by prefix.  When a field declared
    [number] holds a string that starts, after white space if any, with an
    optional sign and at least one decimal digit, whatever follows (as in
    ["42abc"], ["-12px"] or ["+5"]), [parseInt] does not yield [NaN] and
    [validateDocument] reports no [invalid_type] issue on that field.  When
    what follows the digits does not start with a digit, so that they are
    all the digits read, and they denote at most 2^53, [parseInt] yields
    that integer with the sign. *)
Theorem numeric_prefix_is_accepted (doc : object)
    (f ws sg ds rest : string) :
  In (f, "number") (fieldTypes users) ->
  all_whitespace ws = true -> optional_sign sg = true ->
  String.eqb ds "" = false -> all_digits ds = true ->
  get doc f = VStr (ws ++ sg ++ ds ++ rest) ->
  isNaN (parseInt (ws ++ sg ++ ds ++ rest)) = false
  /\ (no_leading_digit rest = true -> decimal ds <= 2 ^ 53 ->
      parseInt (ws ++ sg ++ ds ++ rest) = Fin (sign_factor sg * decimal ds))
  /\ exists issues, validateDocument doc "users" = Ok issues
                    /\ no_issue issues f "invalid_type".
Proof.
  intros Hf Hws Hsg Hne Hd Hget.
  destruct ds as [|c ds]; [discriminate Hne|].
  cbn [all_digits] in Hd. apply andb_prop in Hd as [Hc Hd].
  rewrite append_cons in *.
  pose proof (parseInt_signed ws sg c (ds ++ rest) Hws Hsg Hc) as Hp.
  assert (Hnum : isNaN (parseInt (ws ++ sg ++ String c (ds ++ rest))) = false).
  { rewrite Hp. by destruct (digits_prefix_start c (ds ++ rest) Hc) as [n ->]. }
  split; [exact Hnum|]. split.
  { intros Hr _. rewrite Hp. by rewrite digits_prefix_value. }
  exists (map IssueObject (validate_with users doc)). split; [reflexivity|].
  assert (f = "age") as ->.
  { cbn in Hf. repeat (destruct Hf as [Hf|Hf]; [congruence|]). destruct Hf. }
  intros i Hi [Hfield Hkind].
  apply in_map_iff in Hi as (i' & [= ->] & Hi).
  unfold validate_with, check_required, check_types, check_allowed,
    check_ranges, check_custom in Hi.
  cbn [flat_map requiredFields fieldTypes allowedValues valueRanges
       customValidations users app] in Hi.
  rewrite Hget in Hi. cbn in Hi. rewrite Hnum in Hi. cbn in Hi.
  in_cases Hi; subst i; cbn in Hfield, Hkind; discriminate.
Qed.

Lemma numeric_prefix_is_accepted_witness :
  isNaN (parseInt (" " ++ "-" ++ "12" ++ "px")) = false
  /\ parseInt (" " ++ "-" ++ "12" ++ "px")
     = Fin (sign_factor "-" * decimal "12")
  /\ exists issues,
       validateDocument (<["age" := VStr " -12px"]> charlie) "users"
       = Ok issues
       /\ no_issue issues "age" "invalid_type".
Proof.
  destruct (numeric_prefix_is_accepted (<["age" := VStr " -12px"]> charlie)
              "age" " " "-" "12" "px") as (Hnum & Hval & Hissues).
  - right. right. left. reflexivity.
  - reflexivity.
  - reflexivity.
  - reflexivity.
  - reflexivity.
  - vm_compute. reflexivity.
  - split; [exact Hnum|]. split; [|exact Hissues].
    apply Hval; [reflexivity|]. vm_compute. discriminate.
Defined.

Lemma pipeline_repairs_cases (doc : object) (a : RepairAction) :
  In a (snd (pipeline_state doc)) ->
  (missing (get doc "email") = true
   /\ a = set_default_action "email" VUndefined email_default)
  \/ (bad_role (get doc "role") = true
      /\ a = set_default_action "role" (get doc "role") (VStr "user"))
  \/ (below_range (get doc "age") = true
      /\ a = clamp_action "clamp_to_min" (range_value (get doc "age")) 0)
  \/ (above_range (get doc "age") = true
      /\ a = clamp_action "clamp_to_max" (range_value (get doc "age")) 150).
Proof.
  unfold pipeline_state.
  destruct (missing (get doc "email")), (bad_role (get doc "role")),
    (below_range (get doc "age")), (above_range (get doc "age"));
    cbn [fst snd app]; intros H; in_cases H; subst a; tauto.
Qed.

Lemma pipeline_clamp_min (doc : object) :
  below_range (get doc "age") = true ->
  In (clamp_action "clamp_to_min" (range_value (get doc "age")) 0)
     (snd (pipeline_state doc)).
Proof.
  intros Hb. unfold pipeline_state. rewrite Hb. cbn [snd].
  apply in_or_app. right. by left.
Qed.

Lemma pipeline_clamp_max (doc : object) :
  below_range (get doc "age") = false ->
  above_range (get doc "age") = true ->
  In (clamp_action "clamp_to_max" (range_value (get doc "age")) 150)
     (snd (pipeline_state doc)).
Proof.
  intros Hb Ha. unfold pipeline_state. rewrite Hb, Ha. cbn [snd].
  apply in_or_app. right. by left.
Qed.

(** ** Ranges (C7)

    C7.  For a field with a range that is present in the document and whose
    value, as the range check reads it, is the integer [x]: validating and
    then repairing sets the field to exactly the minimum, with a
    [clamp_to_min] action, when [x] is below the minimum; to exactly the
    maximum, with a [clamp_to_max] action, when [x] is above the maximum;
    and at either bound the validator reports no [out_of_range] issue. *)
Theorem range_is_inclusive_and_clamped (doc : object) (f : string)
    (range : Range) (x : Z) :
  In (f, range) (valueRanges users) ->
  is_undefined (get doc f) = false ->
  numeric_value (get doc f) = Fin x ->
  exists issues r,
    validateDocument doc "users" = Ok issues
    /\ repairDocument doc issues "users" = Ok r
    /\ (x < min range ->
        get (document r) f = VNum (Fin (min range))
        /\ In {| repair_field := f; action := "clamp_to_min";
                 oldValue := range_value (get doc f);
                 newValue := VNum (Fin (min range)) |} (repairs r))
    /\ (max range < x ->
        get (document r) f = VNum (Fin (max range))
        /\ In {| repair_field := f; action := "clamp_to_max";
                 oldValue := range_value (get doc f);
                 newValue := VNum (Fin (max range)) |} (repairs r))
    /\ (x = min range \/ x = max range -> no_issue issues f "out_of_range").
Proof.
  intros Hf Hdef Hx.
  destruct Hf as [[= <- <-]|[]]. cbn [min max].
  exists (map IssueObject (validate_with users doc)).
  eexists. split; [reflexivity|]. split; [apply pipeline_repair|].
  cbn [document repairs]. unfold numeric_value in Hx.
  assert (Hlt : lt (range_value (get doc "age")) 0 = (Z.ltb x 0)).
  { unfold lt. by rewrite Hx. }
  assert (Hgt : gt (range_value (get doc "age")) 150 = (Z.ltb 150 x)).
  { unfold gt. by rewrite Hx. }
  split; [|split].
  - intros Hlow.
    assert (Hb : below_range (get doc "age") = true).
    { unfold below_range. rewrite Hdef, Hlt. cbn. by apply Z.ltb_lt. }
    split; [by rewrite pipeline_get_age, Hb | by apply pipeline_clamp_min].
  - intros Hhigh.
    assert (Hb : below_range (get doc "age") = false).
    { unfold below_range. rewrite Hdef, Hlt. cbn. apply Z.ltb_ge. lia. }
    assert (Ha : above_range (get doc "age") = true).
    { unfold above_range. rewrite Hdef, Hlt, Hgt. cbn.
      apply andb_true_intro. split; [|by apply Z.ltb_lt].
      apply negb_true_iff, Z.ltb_ge. lia. }
    split; [by rewrite pipeline_get_age, Hb, Ha | by apply pipeline_clamp_max].
  - intros Hbound i Hi [Hfield Hkind].
    apply in_map_iff in Hi as (i' & [= ->] & Hi).
    unfold validate_with, check_required, check_types, check_allowed,
      check_ranges, check_custom in Hi.
    cbn [flat_map requiredFields fieldTypes allowedValues valueRanges
         customValidations users app min max] in Hi.
    rewrite Hlt, Hgt in Hi.
    replace (Z.ltb x 0) with false in Hi by (symmetry; apply Z.ltb_ge; lia).
    replace (Z.ltb 150 x) with false in Hi by (symmetry; apply Z.ltb_ge; lia).
    cbn [orb] in Hi.
    in_cases Hi; subst i; cbn in Hfield, Hkind; discriminate.
Qed.

Lemma range_is_inclusive_and_clamped_witness :
  exists issues r,
    validateDocument frank "users" = Ok issues
    /\ repairDocument frank issues "users" = Ok r
    /\ (-5 < 0 ->
        get (document r) "age" = VNum (Fin 0)
        /\ In {| repair_field := "age"; action := "clamp_to_min";
                 oldValue := range_value (get frank "age");
                 newValue := VNum (Fin 0) |} (repairs r))
    /\ (150 < -5 ->
        get (document r) "age" = VNum (Fin 150)
        /\ In {| repair_field := "age"; action := "clamp_to_max";
                 oldValue := range_value (get frank "age");
                 newValue := VNum (Fin 150) |} (repairs r))
    /\ (-5 = 0 \/ -5 = 150 -> no_issue issues "age" "out_of_range").
Proof.
  apply (range_is_inclusive_and_clamped frank "age"
           {| min := 0; max := 150 |} (-5)).
  - left. reflexivity.
  - reflexivity.
  - reflexivity.
Defined.

Lemma fixed_point_on_collection (doc : object) (collection : string)
    (issues : list issue_item) :
  validateDocument doc collection = Ok issues ->
  exists r issues',
    repairDocument doc issues collection = Ok r
    /\ validateDocument (document r) collection = Ok issues'
    /\ incl issues' issues
    /\ repairDocument (document r) issues' collection
       = Ok {| document := document r; repairs := []; shouldDelete := false |}.
Proof.
  intros Hv. unfold validateDocument in Hv.
  destruct (rules_for collection) as [rules| |] eqn:Hrules; [| done |].
  - apply rules_for_found in Hrules as [-> ->]. injection Hv as <-.
    rewrite pipeline_repair. do 2 eexists.
    split; [reflexivity|]. cbn [document].
    split; [apply validateDocument_users|]. split.
    + intros it Hit. apply in_map_iff in Hit as (i & <- & Hi).
      apply in_map. by apply validate_repaired_incl.
    + rewrite pipeline_repair, pipeline_fixed. reflexivity.
  - injection Hv as <-. unfold repairDocument, validateDocument.
    rewrite Hrules. cbn. do 2 eexists.
    split; [reflexivity|]. cbn.
    split; [reflexivity|]. split; [apply incl_refl | reflexivity].
Qed.

(** C9.  Repair is a fixed point.  For every document, validating, repairing
    and validating the repaired document again reports no issue that the
    first validation did not report already, and repairing the repaired
    document on those issues records no action and leaves it as it is. *)
Theorem repair_is_a_fixed_point (doc : object) :
  exists issues r issues',
    validateDocument doc "users" = Ok issues
    /\ repairDocument doc issues "users" = Ok r
    /\ validateDocument (document r) "users" = Ok issues'
    /\ incl issues' issues
    /\ repairDocument (document r) issues' "users"
       = Ok {| document := document r; repairs := []; shouldDelete := false |}.
Proof.
  exists (map IssueObject (validate_with users doc)).
  destruct (fixed_point_on_collection doc "users" _ (validateDocument_users doc))
    as (r & issues' & H).
  exists r, issues'. split; [reflexivity | exact H].
Qed.

(** An issue that has no repair is not new, but it is still there: the seed
    document without a [name] comes out of the repair as it went in, and is
    reported again. *)
Example unrepaired_issue_is_reported_again :
  validateDocument alice "users" = Ok alice_issues
  /\ repairDocument alice alice_issues "users"
     = Ok {| document := alice; repairs := []; shouldDelete := false |}.
Proof. split; vm_compute; reflexivity. Qed.

(** ** The frame of [repairDocument] (C8)

    C8.  Whatever the issues and the collection, when [repairDocument]
    returns, the repaired document has the same own property as the input
    under every name that no recorded repair action names; with no issue at
    all the repaired document is the input and [shouldDelete] is false. *)
Theorem repair_touches_only_recorded_fields (doc : object)
    (issues : list issue_item) (collection : string) (r : RepairResult) :
  repairDocument doc issues collection = Ok r ->
  (forall f, (forall a, In a (repairs r) -> repair_field a <> f) ->
             document r !! f = doc !! f)
  /\ (issues = [] -> document r = doc /\ shouldDelete r = false).
Proof.
  unfold repairDocument, repair_with. intros H.
  apply bind_Ok in H as (st & Hall & H).
  apply bind_Ok in H as (del & Hdel & [= <-]). cbn [document repairs shouldDelete].
  split.
  - apply (repair_all_frame (rules_for collection) doc issues (doc, []) st); [|exact Hall].
    intros f _. reflexivity.
  - intros ->. cbn in Hall, Hdel. injection Hall as <-. injection Hdel as <-.
    by split.
Qed.

Lemma repairDocument_no_issues (doc : object) (collection : string) :
  repairDocument doc [] collection
  = Ok {| document := doc; repairs := []; shouldDelete := false |}.
Proof. reflexivity. Qed.

Lemma repair_touches_only_recorded_fields_witness :
  (forall f, (forall a, In a (repairs grace_repaired) -> repair_field a <> f) ->
             document grace_repaired !! f = grace !! f)
  /\ (grace_issues = [] ->
      document grace_repaired = grace /\ shouldDelete grace_repaired = false).
Proof.
  apply (repair_touches_only_recorded_fields grace grace_issues "users").
  vm_compute. reflexivity.
Defined.

(** ** The deletion verdict (C1)

    C1, evaluated where it fails.  [age] has the configured default 0, yet an
    issue of high severity and kind [invalid_value] on [age] makes
    [shouldDelete] true for every document: the source tests the default for
    truthiness, and 0 is falsy. *)
Theorem shouldDelete_ignores_zero_default (doc : object) :
  own (defaultValues users) "age" = Some (VNum (Fin 0))
  /\ repairDocument doc [mk_issue "age" "invalid_value" "high"] "users"
     = Ok {| document := doc; repairs := []; shouldDelete := true |}.
Proof. split; reflexivity. Qed.

(** C2, evaluated where it fails.  The seed document whose [age] is the
    string ["42"] gets no issue from [validateDocument], and so
    [repairDocument] records nothing for it: no [type_conversion] action is
    produced and [age] stays a string. *)
Theorem numeric_string_is_never_converted :
  get charlie "age" = VStr "42" /\ parseInt "42" = Fin 42
  /\ validateDocument charlie "users" = Ok []
  /\ repairDocument charlie [] "users"
     = Ok {| document := charlie; repairs := []; shouldDelete := false |}.
Proof. repeat split; vm_compute; reflexivity. Qed.

Lemma pipeline_has_no_type_conversion (doc : object) :
  exists issues r,
    validateDocument doc "users" = Ok issues
    /\ repairDocument doc issues "users" = Ok r
    /\ forall a, In a (repairs r) -> action a <> "type_conversion".
Proof.
  exists (map IssueObject (validate_with users doc)). eexists.
  split; [reflexivity|]. split; [apply pipeline_repair|].
  cbn [repairs]. intros a Ha.
  apply pipeline_repairs_cases in Ha as [[_ ->]|[[_ ->]|[[_ ->]|[_ ->]]]];
    discriminate.
Qed.

(** The worked example: [email] is reported missing and receives its
    default; the numeric string in [age] gets neither an issue nor a
    repair. *)
Example bob_is_given_an_email :
  validateDocument bob "users"
  = Ok [IssueObject
          {| field := "email"; issue := "missing_required_field";
             severity := "high";
             description := "Required field 'email' is missing or empty" |}]
  /\ exists r issues,
       validateDocument bob "users" = Ok issues
       /\ repairDocument bob issues "users" = Ok r
       /\ repairs r = [set_default_action "email" VUndefined email_default]
       /\ get (document r) "age" = VStr "42"
       /\ shouldDelete r = false.
Proof.
  split; [reflexivity|]. do 2 eexists. split; [reflexivity|].
  split; [apply pipeline_repair|]. by vm_compute.
Qed.

(** The conversion itself works when the issue is handed in by hand. *)
Example type_conversion_by_hand :
  repairDocument charlie [mk_issue "age" "invalid_type" "medium"] "users"
  = Ok {| document := <["age" := VNum (Fin 42)]> charlie;
          repairs := [ {| repair_field := "age"; action := "type_conversion";
                          oldValue := VStr "42";
                          newValue := VNum (Fin 42) |} ];
          shouldDelete := false |}.
Proof. vm_compute. reflexivity. Qed.

(** ** Collections without rules (C5)

    C5, evaluated where it fails.  ["constructor"] has no rule set, yet
    [validationRules['constructor']] is truthy (it is inherited from
    [Object.prototype]), the guard for a missing rule set is passed, and
    [validateDocument] raises a [TypeError] on every document. *)
Theorem validateDocument_raises_on_inherited_name (doc : object) :
  own validationRules "constructor" = None
  /\ validateDocument doc "constructor" = Throw (TypeError "forEach").
Proof. split; reflexivity. Qed.

Lemma validateDocument_returns_off_prototype (doc : object)
    (collection : string) :
  inherited collection = false ->
  exists issues, validateDocument doc collection = Ok issues.
Proof.
  intros Hi. unfold validateDocument, rules_for.
  destruct (own validationRules collection); [eauto|].
  rewrite Hi. eauto.
Qed.

Lemma validateDocument_unknown_collection (doc : object) (collection : string) :
  String.eqb collection "users" = false -> inherited collection = false ->
  validateDocument doc collection
  = Ok [IssueString
          ("No validation rules found for collection: " ++ collection)].
Proof.
  intros Hu Hi. unfold validateDocument, rules_for, validationRules.
  cbn [own]. by rewrite Hu, Hi.
Qed.

(** ** Missing required fields (C6)

    C6, evaluated where it fails.  [age] has the configured default 0 and the
    document has no [age]; on a [missing_required_field] issue for [age],
    [repairDocument] leaves the field absent and records no action, because
    the default is tested for truthiness. *)
Theorem missing_field_with_zero_default_is_not_set :
  own (defaultValues users) "age" = Some (VNum (Fin 0))
  /\ get luke "age" = VUndefined
  /\ repairDocument luke
       [mk_issue "age" "missing_required_field" "high"] "users"
     = Ok {| document := luke; repairs := []; shouldDelete := false |}.
Proof. repeat split; vm_compute; reflexivity. Qed.

(** ** The status projector (C3)

    C3.  The status computed from a report has [isConsistent] true exactly
    when [inconsistenciesFound] is 0 or equals [repairsApplied] plus
    [documentsDeleted]; [allReplicasConsistent] is equal to [isConsistent];
    and this is the record [updateConsistencyStatus] stores under the
    collection name. *)
Theorem status_projection (collectionName : string) (report : Report.t)
    (now : Z) (db : MemDB) :
  let status := status_of collectionName report now in
  (Status.isConsistent status = true <->
     Report.inconsistenciesFound report = 0%nat
     \/ Report.inconsistenciesFound report
        = (Report.repairsApplied report + Report.documentsDeleted report)%nat)
  /\ Status.allReplicasConsistent status = Status.isConsistent status
  /\ mem_status (updateConsistencyStatus mem_upsert_status collectionName
                   report now db) !! collectionName = Some status.
Proof.
  cbn zeta. split; [|split].
  - unfold status_of. cbn [Status.isConsistent].
    rewrite orb_true_iff, !Nat.eqb_eq. reflexivity.
  - reflexivity.
  - unfold updateConsistencyStatus, mem_upsert_status. cbn [mem_status].
    apply lookup_insert_eq.
Qed.

(** On the issues the validator itself produces, a missing required field
    is [name] or [email]: [email] receives its default, [name] has none and
    is left alone; the document is never marked for deletion. *)
Lemma missing_required_on_validator_issues (doc : object) (i : Issue) :
  In i (validate_with users doc) ->
  issue i = "missing_required_field" ->
  (field i = "email"
   /\ get (fst (pipeline_state doc)) "email" = email_default
   /\ In (set_default_action "email" VUndefined email_default)
         (snd (pipeline_state doc)))
  \/ (field i = "name"
      /\ own (defaultValues users) "name" = None
      /\ (forall a, In a (snd (pipeline_state doc)) -> repair_field a <> "name")
      /\ fst (pipeline_state doc) !! "name" = doc !! "name").
Proof.
  intros Hi Hkind.
  unfold validate_with, check_required, check_types, check_allowed,
    check_ranges, check_custom in Hi.
  cbn [flat_map requiredFields fieldTypes allowedValues valueRanges
       customValidations users app] in Hi.
  in_cases Hi; subst i; cbn in Hkind; try discriminate.
  - right. split; [reflexivity|]. split; [reflexivity|]. split.
    + intros a Ha.
      apply pipeline_repairs_cases in Ha as [[_ ->]|[[_ ->]|[[_ ->]|[_ ->]]]];
        discriminate.
    + unfold pipeline_state.
      destruct (missing (get doc "email")), (bad_role (get doc "role")),
        (below_range (get doc "age")), (above_range (get doc "age"));
        cbn [fst]; rewrite ?lookup_set_ne by done; reflexivity.
  - left. split; [reflexivity|].
    assert (Hm : missing (get doc "email") = true) by assumption.
    split; [by rewrite pipeline_get_email, Hm|].
    unfold pipeline_state. rewrite Hm.
    destruct (bad_role (get doc "role")), (below_range (get doc "age")),
      (above_range (get doc "age")); cbn [fst snd];
      rewrite ?in_app_iff; cbn [In]; tauto.
Qed.

Lemma status_projection_witness :
  Status.isConsistent (status_of "users"
    {| Report.timestamp := 0; Report.collection := "users";
       Report.totalDocuments := 3; Report.inconsistenciesFound := 3;
       Report.repairsApplied := 2; Report.documentsDeleted := 1;
       Report.errors := []; Report.details := []; Report.duration := 0 |} 7)
  = true.
Proof.
  apply (status_projection "users" _ 7 (sample_db false (fun _ => false))).
  right. reflexivity.
Defined.

(** ** The scan coordinator

    One call running alone.  Whatever the storage does, [checkCollection]
    throws the already-in-progress error exactly when the flag is up at
    entry, then leaving the checker and the storage as they were; otherwise
    it returns a report and leaves the flag down, whether the scan went
    through, a document failed, or the documents could not be listed. *)
Lemma checkCollection_exits {DB : Type}
    (Status_findOneAndUpdate : string -> Status.t -> DB -> result DB)
    (M : Model DB) (collectionName : string) (clock : Clock)
    (this : Checker) (db : DB) :
  let out := checkCollection Status_findOneAndUpdate M collectionName clock
               this db in
  (fst (fst out) = Throw already_running <-> isRunning this = true)
  /\ (isRunning this = true -> snd (fst out) = this /\ snd out = db)
  /\ (isRunning this = false ->
      (exists report, fst (fst out) = Ok report)
      /\ isRunning (snd (fst out)) = false).
Proof.
  cbn zeta. unfold checkCollection, enter.
  destruct (isRunning this) eqn:Hrun.
  - cbn. repeat split; done.
  - destruct (scan _ _ _ _ _) as [report db'] eqn:Hscan. cbn.
    repeat split; try done. eauto.
Qed.

Lemma checkCollection_exits_witness :
  let out := run_sample false (String.eqb "g1") new_checker in
  (fst (fst out) = Throw already_running <-> isRunning new_checker = true)
  /\ (isRunning new_checker = true ->
      snd (fst out) = new_checker
      /\ snd out = sample_db false (String.eqb "g1"))
  /\ (isRunning new_checker = false ->
      (exists report, fst (fst out) = Ok report)
      /\ isRunning (snd (fst out)) = false).
Proof.
  exact (checkCollection_exits mem_upsert_status MemModel "users"
           sample_clock new_checker (sample_db false (String.eqb "g1"))).
Defined.

(** Between entry and exit the flag is up, and a second call is turned
    away. *)
Lemma enter_raises_flag (this this1 : Checker) :
  enter this = Ok this1 ->
  isRunning this1 = true /\ enter this1 = Throw already_running.
Proof.
  unfold enter. destruct (isRunning this); [discriminate|].
  intros [= <-]. by split.
Qed.

Example scan_succeeds :
  summary (run_sample false (fun _ => false) new_checker)
  = (Some (3%nat, 3%nat, 2%nat, 0%nat, [], 50), false).
Proof. vm_compute. reflexivity. Qed.

Example scan_with_document_fault :
  summary (run_sample false (String.eqb "g1") new_checker)
  = (Some (3%nat, 3%nat, 0%nat, 0%nat,
           ["Error processing document g1: write failed"], 50), false).
Proof. vm_compute. reflexivity. Qed.

Example scan_with_scan_fault :
  summary (run_sample true (fun _ => false) new_checker)
  = (Some (0%nat, 0%nat, 0%nat, 0%nat,
           ["Consistency check failed: connection lost"], 50), false).
Proof. vm_compute. reflexivity. Qed.

Example scan_rejected_while_running :
  fst (fst (run_sample false (fun _ => false)
              {| isRunning := true; currentCheck := None |}))
  = Throw already_running.
Proof. reflexivity. Qed.

(** ** One scan at a time (C4)

    The flag is what turns a second call away: it is raised at entry and
    stays up at every wait of the scan. *)

Lemma run_scans_rejected {DB : Type}
    (Status_findOneAndUpdate : string -> Status.t -> DB -> result DB)
    (M : Model DB) (calls : list (string * Clock)) (this : Checker) (db : DB) :
  isRunning this = true ->
  run_scans Status_findOneAndUpdate M calls this db
  = (map (fun _ => Throw already_running) calls, this, db).
Proof.
  intros Hup. induction calls as [|[name clock] calls IH]; [done|].
  cbn [run_scans map]. unfold checkCollection, enter. rewrite Hup.
  by rewrite IH.
Qed.

Lemma Forall_rejected_map {A B : Type} (l : list B) :
  Forall (@rejected A) (map (fun _ => Throw already_running) l).
Proof. induction l; constructor; done. Qed.

Section Interleaved_facts.
Context {DB : Type}.
Variable Status_findOneAndUpdate : string -> Status.t -> DB -> result DB.
Variable M : Model DB.
Variable arrivals : await_point -> list (string * Clock).
Variable collectionName : string.

(** While the flag is up, the requests that arrive at a wait are all turned
    away and leave the checker and the storage as they are. *)
Lemma wait_while_running (p : await_point) (this : Checker) (db : DB)
    (answers : list (result Report.t)) :
  isRunning this = true ->
  wait Status_findOneAndUpdate M arrivals p (this, db, answers)
  = (this, db,
     (answers ++ map (fun _ => Throw already_running) (arrivals p))%list).
Proof.
  intros Hup. unfold wait. by rewrite run_scans_rejected.
Qed.

Lemma check_document_while_running (n : nat) (doc : Doc) (report : Report.t)
    (this : Checker) (db : DB) (answers : list (result Report.t)) :
  isRunning this = true ->
  exists more,
    check_document_among Status_findOneAndUpdate M arrivals collectionName
      n doc report (this, db, answers)
    = (fst (fst (check_document M collectionName doc report db)),
       (this, snd (fst (check_document M collectionName doc report db)),
        (answers ++ more)%list),
       snd (check_document M collectionName doc report db))
    /\ Forall rejected more.
Proof.
  intros Hup. unfold check_document_among, check_document.
  assert (Hnone : forall (r : Report.t) (d : DB) (e : option exn),
             exists more : list (result Report.t),
               (r, (this, d, answers), e)
               = (r, (this, d, (answers ++ more)%list), e)
               /\ Forall rejected more).
  { intros r d e. exists []. by rewrite app_nil_r. }
  destruct (validateDocument _ _) as [issues|e]; [|by apply Hnone].
  destruct (0 <? length issues)%nat; [|by apply Hnone].
  destruct (repairDocument _ _ _) as [r|e]; [|by apply Hnone].
  destruct (shouldDelete r).
  - destruct (findByIdAndDelete M _ db) as [db'|e];
      rewrite wait_while_running by done; cbn [fst snd];
      (eexists; split; [reflexivity|apply Forall_rejected_map]).
  - destruct (0 <? length (repairs r))%nat; [|by apply Hnone].
    destruct (findByIdAndUpdate M _ _ db) as [db'|e];
      rewrite wait_while_running by done; cbn [fst snd];
      (eexists; split; [reflexivity|apply Forall_rejected_map]).
Qed.

Lemma process_documents_while_running (n : nat) (docs : list Doc)
    (report : Report.t) (this : Checker) (db : DB)
    (answers : list (result Report.t)) :
  isRunning this = true ->
  exists more,
    process_documents_among Status_findOneAndUpdate M arrivals collectionName
      n docs report (this, db, answers)
    = (fst (process_documents M collectionName docs (report, db)),
       (this, snd (process_documents M collectionName docs (report, db)),
        (answers ++ more)%list))
    /\ Forall rejected more.
Proof.
  intros Hup. revert n report db answers.
  induction docs as [|doc docs IH]; intros n report db answers.
  - exists []. by rewrite app_nil_r.
  - cbn [process_documents_among].
    destruct (check_document_while_running n doc report this db answers Hup)
      as (more1 & -> & Hmore1).
    unfold process_documents. cbn [fold_left].
    unfold process_document at 2 4.
    destruct (check_document M collectionName doc report db)
      as [[report1 db1] [e|]]; cbn [fst snd];
      (edestruct IH as (more2 & -> & Hmore2));
      (exists (more1 ++ more2)%list; split;
       [by rewrite app_assoc|by apply Forall_app]).
Qed.

Lemma scan_while_running (clock : Clock) (this : Checker) (db : DB) :
  isRunning this = true ->
  exists later,
    scan_among Status_findOneAndUpdate M arrivals collectionName clock
      (this, db, [])
    = (fst (scan Status_findOneAndUpdate M collectionName clock db),
       (this, snd (scan Status_findOneAndUpdate M collectionName clock db),
        (map (fun _ => Throw already_running) (arrivals AwaitFind)
         ++ later)%list))
    /\ Forall rejected later.
Proof.
  intros Hup. unfold scan_among, scan.
  rewrite wait_while_running by done. cbn [app].
  destruct (find M db) as [docs|e].
  2:{ exists []. by rewrite app_nil_r. }
  destruct (process_documents_while_running 0 docs
              (with_totalDocuments (length docs)
                 (empty_report collectionName (startTime clock)))
              this db
              (map (fun _ => Throw already_running) (arrivals AwaitFind))
              Hup) as (more & -> & Hmore).
  destruct (process_documents M collectionName docs _) as [report1 db1].
  cbn [fst snd]. rewrite wait_while_running by done.
  eexists. split; [by rewrite <- app_assoc|].
  apply Forall_app. split; [done|apply Forall_rejected_map].
Qed.
End Interleaved_facts.

(** C4.  [checkCollection], run among other requests on the same checker,
    throws the already-in-progress error exactly when the flag is up at
    entry, then answering nothing and leaving the checker and the storage as
    they were.  Otherwise it returns a report and leaves the flag down,
    whatever the storage does (the scan goes through, a document fails, the
    documents cannot be listed); every call that arrives while it waits for
    the storage is turned away with the already-in-progress error, those
    that arrive while the documents are listed among them; and the report,
    the checker and the storage are those of the call running alone. *)
Theorem checkCollection_admits_one_scan {DB : Type}
    (Status_findOneAndUpdate : string -> Status.t -> DB -> result DB)
    (M : Model DB) (arrivals : await_point -> list (string * Clock))
    (collectionName : string) (clock : Clock) (this : Checker) (db : DB) :
  let out :=
    checkCollection_among Status_findOneAndUpdate M arrivals collectionName
      clock this db in
  let result := fst (fst (fst out)) in
  let answers := snd (fst (fst out)) in
  let this' := snd (fst out) in
  let db' := snd out in
  (result = Throw already_running <-> isRunning this = true)
  /\ (isRunning this = true -> answers = [] /\ this' = this /\ db' = db)
  /\ (isRunning this = false ->
      (exists report, result = Ok report)
      /\ isRunning this' = false
      /\ Forall rejected answers
      /\ (exists later,
            answers
            = (map (fun _ => Throw already_running) (arrivals AwaitFind)
               ++ later)%list)
      /\ (result, this', db')
         = checkCollection Status_findOneAndUpdate M collectionName clock
             this db).
Proof.
  cbn zeta. unfold checkCollection_among, checkCollection, enter.
  destruct (isRunning this) eqn:Hrun.
  - cbn. repeat split; done.
  - destruct (scan_while_running Status_findOneAndUpdate M arrivals
                collectionName clock
                {| isRunning := true; currentCheck := currentCheck this |}
                db eq_refl) as (later & -> & Hlater).
    destruct (scan _ _ _ _ _) as [report db1]. cbn [fst snd].
    split; [split; discriminate|]. split; [discriminate|]. intros _.
    split; [by eexists|]. split; [reflexivity|].
    split; [apply Forall_app; split; [apply Forall_rejected_map|done]|].
    split; [by eexists|reflexivity].
Qed.

Lemma checkCollection_admits_one_scan_witness :
  let out :=
    checkCollection_among mem_upsert_status MemModel sample_arrivals "users"
      sample_clock new_checker (sample_db false (String.eqb "g1")) in
  isRunning new_checker = false
  /\ (exists report, fst (fst (fst out)) = Ok report)
  /\ isRunning (snd (fst out)) = false
  /\ Forall rejected (snd (fst (fst out)))
  /\ (exists later,
        snd (fst (fst out))
        = (map (fun _ => Throw already_running) (sample_arrivals AwaitFind)
           ++ later)%list)
  /\ (fst (fst (fst out)), snd (fst out), snd out)
     = checkCollection mem_upsert_status MemModel "users" sample_clock
         new_checker (sample_db false (String.eqb "g1")).
Proof.
  split; [reflexivity|].
  apply (checkCollection_admits_one_scan mem_upsert_status MemModel
           sample_arrivals "users" sample_clock new_checker
           (sample_db false (String.eqb "g1"))).
  reflexivity.
Defined.

(** A scan of the sample collection with two calls arriving while the
    documents are listed, one at the write of the one document it repairs
    and one while the status is stored: all four are turned away, and the
    scan ends as it does alone. *)
Example calls_during_a_scan_are_turned_away :
  let out :=
    checkCollection_among mem_upsert_status MemModel sample_arrivals "users"
      sample_clock new_checker (sample_db false (fun _ => false)) in
  snd (fst (fst out))
  = [Throw already_running; Throw already_running; Throw already_running;
     Throw already_running]
  /\ summary (fst (fst (fst out)), snd (fst out), snd out)
     = (Some (3%nat, 3%nat, 2%nat, 0%nat, [], 50), false).
Proof. vm_compute. split; reflexivity. Qed.

(** * Further properties

    ** The email pattern *)

Lemma append_nil_r (s : string) : s ++ "" = s.
Proof. induction s as [|c s IH]; [done|]. by rewrite append_cons, IH. Qed.

Lemma append_assoc (s t u : string) : (s ++ t) ++ u = s ++ (t ++ u).
Proof.
  induction s as [|c s IH]; [done|]. by rewrite !append_cons, IH.
Qed.

Lemma append_eq_nil (s t : string) : s ++ t = "" -> s = "" /\ t = "".
Proof. destruct s; [by rewrite append_nil_l|by rewrite append_cons]. Qed.

Lemma nullable_lang (r : regex) : nullable r = true <-> lang r "".
Proof.
  induction r as [| |p|r1 IH1 r2 IH2|r1 IH1 r2 IH2|r IH]; cbn.
  - split; [done|]. inversion 1.
  - split; [constructor|done].
  - split; [done|]. inversion 1.
  - rewrite andb_true_iff, IH1, IH2. split.
    + intros [H1 H2]. change "" with ("" ++ ""). by constructor.
    + inversion 1 as [| |? ? s1 s2 H1 H2 [E1 E2] E3| | | |]; subst.
      apply append_eq_nil in E3 as [-> ->]. by split.
  - rewrite orb_true_iff, IH1, IH2. split.
    + intros [H|H]; [by apply lang_alt_l|by apply lang_alt_r].
    + inversion 1; subst; tauto.
  - split; [constructor|done].
Qed.

(** A non-empty word of [Star r] starts with a non-empty word of [r]. *)
Lemma lang_star_cons_inv (r : regex) (c : ascii) (s : string) :
  lang (Star r) (String c s) ->
  exists s1 s2, s = s1 ++ s2 /\ lang r (String c s1) /\ lang (Star r) s2.
Proof.
  intros H. remember (Star r) as r' eqn:Er. remember (String c s) as w eqn:Ew.
  revert Er Ew. induction H as [| | | | | |r0 s1 s2 H1 _ H2 IH2];
    intros Er Ew; try discriminate.
  injection Er as ->. destruct s1 as [|c1 s1].
  - rewrite append_nil_l in Ew. by apply IH2.
  - rewrite append_cons in Ew. injection Ew as -> <-. eauto.
Qed.

Lemma deriv_lang (r : regex) (c : ascii) (s : string) :
  lang (deriv c r) s <-> lang r (String c s).
Proof.
  revert s. induction r as [| |p|r1 IH1 r2 IH2|r1 IH1 r2 IH2|r IH];
    intros s; cbn [deriv].
  - split; inversion 1.
  - split; inversion 1.
  - destruct (p c) eqn:Hp; split.
    + inversion 1; subst. by constructor.
    + inversion 1; subst. constructor.
    + inversion 1.
    + inversion 1; subst. congruence.
  - assert (Hseq : lang (Seq (deriv c r1) r2) s ->
                   lang (Seq r1 r2) (String c s)).
    { inversion 1 as [| |? ? s1 s2 H1 H2| | | |]; subst.
      rewrite <- append_cons. constructor; [by apply IH1|done]. }
    destruct (nullable r1) eqn:Hn; split.
    + inversion 1 as [| | |? ? ? H1|? ? ? H2| |]; subst; [by apply Hseq|].
      rewrite <- (append_nil_l (String c s)).
      constructor; [by apply nullable_lang|by apply IH2].
    + inversion 1 as [| |? ? s1 s2 H1 H2 [E1 E2] E3| | | |]; subst.
      destruct s1 as [|c1 s1].
      * rewrite append_nil_l in E3. subst s2.
        apply lang_alt_r. by apply IH2.
      * rewrite append_cons in E3. injection E3 as -> <-.
        apply lang_alt_l. constructor; [by apply IH1|done].
    + apply Hseq.
    + inversion 1 as [| |? ? s1 s2 H1 H2 [E1 E2] E3| | | |]; subst.
      destruct s1 as [|c1 s1].
      * apply nullable_lang in H1. congruence.
      * rewrite append_cons in E3. injection E3 as -> <-.
        constructor; [by apply IH1|done].
  - split.
    + inversion 1; subst;
        [apply lang_alt_l; by apply IH1 | apply lang_alt_r; by apply IH2].
    + inversion 1; subst;
        [apply lang_alt_l; by apply IH1 | apply lang_alt_r; by apply IH2].
  - split.
    + inversion 1 as [| |? ? s1 s2 H1 H2| | | |]; subst.
      rewrite <- append_cons. constructor; [by apply IH|done].
    + intros H. apply lang_star_cons_inv in H as (s1 & s2 & -> & H1 & H2).
      constructor; [by apply IH|done].
Qed.

Lemma matches_lang (r : regex) (s : string) :
  matches r s = true <-> lang r s.
Proof.
  revert r. induction s as [|c s IH]; intros r; cbn [matches].
  - apply nullable_lang.
  - rewrite IH. apply deriv_lang.
Qed.

Lemma lang_seq_inv (r1 r2 : regex) (s : string) :
  lang (Seq r1 r2) s <->
  exists s1 s2, s = s1 ++ s2 /\ lang r1 s1 /\ lang r2 s2.
Proof.
  split.
  - inversion 1; subst. eauto.
  - intros (s1 & s2 & -> & H1 & H2). by constructor.
Qed.

Lemma lang_class_inv (p : ascii -> bool) (s : string) :
  lang (Class p) s <-> exists c, s = String c "" /\ p c = true.
Proof.
  split.
  - inversion 1; subst. eauto.
  - intros (c & -> & Hc). by constructor.
Qed.

Lemma lang_star_class (p : ascii -> bool) (s : string) :
  lang (Star (Class p)) s <-> string_forall p s = true.
Proof.
  split.
  - intros H. remember (Star (Class p)) as r eqn:Er. revert Er.
    induction H as [| | | | | |r0 s1 s2 H1 _ H2 IH2]; intros Er;
      try discriminate; [done|].
    injection Er as ->. inversion H1; subst.
    rewrite append_cons, append_nil_l. cbn.
    apply andb_true_intro. split; [done|by apply IH2].
  - induction s as [|c s IH]; cbn; [constructor|].
    intros H. apply andb_prop in H as [Hc Hs].
    change (String c s) with (String c "" ++ s).
    constructor; [by constructor|by apply IH].
Qed.

Lemma lang_plus_class (p : ascii -> bool) (s : string) :
  lang (Plus (Class p)) s <->
  negb (String.eqb s "") && string_forall p s = true.
Proof.
  unfold Plus. rewrite lang_seq_inv. split.
  - intros (s1 & s2 & -> & H1 & H2).
    apply lang_class_inv in H1 as (c & -> & Hc).
    apply lang_star_class in H2.
    rewrite append_cons, append_nil_l. cbn. by rewrite Hc, H2.
  - destruct s as [|c s]; [done|]. cbn. intros H.
    apply andb_prop in H as [Hc Hs].
    exists (String c ""), s. split; [done|].
    split; [by constructor|by apply lang_star_class].
Qed.

Lemma ascii_eqb_true (a c : ascii) : Ascii.eqb a c = true <-> c = a.
Proof. rewrite Ascii.eqb_eq. split; congruence. Qed.

Lemma lang_emailRegex (s : string) :
  lang emailRegex s <->
  exists a b c,
    s = a ++ "@" ++ b ++ "." ++ c
    /\ email_part a = true /\ email_part b = true /\ email_part c = true.
Proof.
  unfold emailRegex, email_part. split.
  - intros H.
    apply lang_seq_inv in H as (a & s1 & -> & Ha & H).
    apply lang_seq_inv in H as (at_ & s2 & -> & Hat & H).
    apply lang_seq_inv in H as (b & s3 & -> & Hb & H).
    apply lang_seq_inv in H as (dot & c & -> & Hdot & Hc).
    apply lang_class_inv in Hat as (x & -> & Hx).
    apply lang_class_inv in Hdot as (y & -> & Hy).
    apply ascii_eqb_true in Hx as ->. apply ascii_eqb_true in Hy as ->.
    exists a, b, c. split; [reflexivity|].
    by rewrite <- !lang_plus_class.
  - intros (a & b & c & -> & Ha & Hb & Hc).
    apply lang_plus_class in Ha, Hb, Hc.
    constructor; [done|]. change ("@" ++ b ++ "." ++ c)
      with (String "@" "" ++ (b ++ String "." "" ++ c)).
    constructor; [by constructor|].
    constructor; [done|]. constructor; [by constructor|done].
Qed.

(** X1.  The email pattern accepts a string exactly when it reads
    [a@b.c] for three non-empty parts [a], [b], [c] free of white space and
    of [@]; [b] and [c] may themselves contain dots. *)
Theorem email_pattern_accepts (s : string) :
  test emailRegex (VStr s) = true <->
  exists a b c,
    s = a ++ "@" ++ b ++ "." ++ c
    /\ email_part a = true /\ email_part b = true /\ email_part c = true.
Proof.
  unfold test. cbn [ToString]. rewrite matches_lang. apply lang_emailRegex.
Qed.

Lemma email_pattern_accepts_witness :
  exists a b c,
    "john.doe@example.com" = a ++ "@" ++ b ++ "." ++ c
    /\ email_part a = true /\ email_part b = true /\ email_part c = true.
Proof.
  apply (email_pattern_accepts "john.doe@example.com").
  vm_compute. reflexivity.
Defined.

Lemma validate_follows_plan (doc : object) :
  sublist (map signature (validate_with users doc)) check_plan.
Proof.
  unfold validate_with, check_required, check_types, check_allowed,
    check_ranges, check_custom.
  cbn [flat_map requiredFields fieldTypes allowedValues valueRanges
       customValidations users].
  rewrite !map_app. cbn [map app].
  change check_plan with
    (([("name", "missing_required_field", "high")]
      ++ [("email", "missing_required_field", "high")] ++ [])
     ++ ([("name", "invalid_type", "medium")]
         ++ [("email", "invalid_type", "medium")]
         ++ [("age", "invalid_type", "medium")]
         ++ [("role", "invalid_type", "medium")]
         ++ [("isActive", "invalid_type", "medium")] ++ [])
     ++ ([("role", "invalid_value", "high")] ++ [])
     ++ ([("age", "out_of_range", "medium")] ++ [])
     ++ ([("email", "custom_validation_failed", "medium")] ++ []))%list.
  repeat apply sublist_app; try apply sublist_nil;
    repeat case_match; cbn; repeat constructor.
Qed.

(** X2.  Whatever the document, the issues reported for [users] are the
    fixed plan of ten checks with some of them left out: their fields, kinds
    and severities come in the order of the plan, none comes twice, and
    there are at most ten. *)
Theorem issues_follow_the_check_plan (doc : object) :
  exists issues,
    validateDocument doc "users" = Ok (map IssueObject issues)
    /\ sublist (map signature issues) check_plan
    /\ NoDup (map signature issues)
    /\ (length issues <= 10)%nat.
Proof.
  exists (validate_with users doc). split; [reflexivity|].
  pose proof (validate_follows_plan doc) as Hsub.
  split; [exact Hsub|]. split.
  - apply (sublist_NoDup _ check_plan); [|exact Hsub].
    apply (bool_decide_unpack _). by vm_compute.
  - apply sublist_length in Hsub. rewrite length_map in Hsub. exact Hsub.
Qed.

Lemma if_nil {A : Type} (b : bool) (x : A) :
  (if b then [x] else []) = [] <-> b = false.
Proof. destruct b; split; congruence. Qed.

Lemma if_if_nil {A : Type} (b c : bool) (x : A) :
  (if b then if c then [x] else [] else []) = [] <-> b && c = false.
Proof. destruct b, c; split; cbn; congruence. Qed.

Lemma if_3_nil {A : Type} (b t n m : bool) (x y : A) :
  (if b then if t then if n then [x] else [] else if m then [y] else []
   else []) = [] <-> b && (if t then n else m) = false.
Proof. destruct b, t, n, m; split; cbn; congruence. Qed.

Lemma name_checks (v : value) :
  is_undefined v || is_null v || strict_eq_string v "" = false
  /\ negb (is_undefined v) && negb ("string" =? typeof v) = false
  <-> name_ok v = true.
Proof.
  destruct v as [| |b|n|s|[] ? ?]; cbn; try (split; [intros [? ?]|]; discriminate).
  destruct (s =? ""); cbn; split; try tauto; try discriminate.
  intros [? ?]; discriminate.
Qed.

Lemma email_checks (v : value) :
  name_ok v = true ->
  (negb (is_undefined v) && negb (test emailRegex v) = false
   <-> test emailRegex v = true).
Proof.
  destruct v; try discriminate. intros _. cbn.
  destruct (test emailRegex _); cbn; split; congruence.
Qed.

Lemma age_checks (v : value) :
  negb (is_undefined v)
  && (if typeof v =? "string" then isNaN (parseInt (ToString v))
      else negb ("number" =? typeof v)) = false
  /\ negb (is_undefined v)
     && (lt (range_value v) 0 || gt (range_value v) 150) = false
  <-> age_ok v = true.
Proof.
  destruct v as [| |b|n|s|[] ? ?]; cbn; try (split; [intros [? ?]|]; discriminate).
  - split; done.
  - destruct n as [|z]; cbn; [split; done|].
    rewrite orb_false_iff, andb_true_iff, !Z.ltb_ge, !Z.leb_le. tauto.
  - destruct (parseInt s) as [|z]; cbn; [split; [intros [? ?]|]; discriminate|].
    rewrite orb_false_iff, andb_true_iff, !Z.ltb_ge, !Z.leb_le. tauto.
Qed.

Lemma role_checks (v : value) :
  negb (is_undefined v) && negb ("string" =? typeof v) = false
  /\ negb (is_undefined v)
     && negb (includes [VStr "user"; VStr "admin"; VStr "moderator"] v)
     = false
  <-> role_ok v = true.
Proof.
  destruct v as [| |b|n|s|[] ? ?]; cbn; try (split; [intros [? ?]|]; discriminate).
  - split; done.
  - rewrite (String.eqb_sym "user"), (String.eqb_sym "admin"),
      (String.eqb_sym "moderator"), orb_false_r, orb_assoc.
    destruct (_ || _ || _); cbn; split; try tauto; try discriminate.
    intros [? ?]; discriminate.
Qed.

Lemma isActive_checks (v : value) :
  negb (is_undefined v) && negb ("boolean" =? typeof v) = false
  <-> isActive_ok v = true.
Proof. destruct v as [| |b|n|s|[] ? ?]; cbn; split; congruence. Qed.

Lemma validate_empty_iff (doc : object) :
  validate_with users doc = [] <-> conforms doc = true.
Proof.
  unfold validate_with, check_required, check_types, check_allowed,
    check_ranges, check_custom, conforms, email_ok.
  cbn. rewrite !app_nil, !if_nil, !if_if_nil, !if_3_nil, !andb_true_iff.
  generalize (get doc "name") (get doc "email") (get doc "age")
    (get doc "role") (get doc "isActive").
  intros vn ve va vr vi.
  pose proof (name_checks vn) as Hn. pose proof (name_checks ve) as He.
  pose proof (email_checks ve) as Hc. pose proof (age_checks va) as Ha.
  pose proof (role_checks vr) as Hr. pose proof (isActive_checks vi) as Hi.
  intuition.
Qed.

(** X3.  [validateDocument] reports nothing for [users] exactly when: [name]
    and [email] are non-empty strings and [email] matches the pattern; [age]
    is absent, a number that is [NaN] or within 0..150, or a string whose
    leading integer is within 0..150; [role] is absent or one of the three
    allowed strings; [isActive] is absent or a boolean. *)
Theorem empty_validation_means_conforming (doc : object) :
  validateDocument doc "users" = Ok [] <-> conforms doc = true.
Proof.
  rewrite <- validate_empty_iff. change (validateDocument doc "users")
    with (Ok (map IssueObject (validate_with users doc))).
  split.
  - intros [= H]. by apply map_eq_nil in H.
  - by intros ->.
Qed.

Lemma empty_validation_means_conforming_witness :
  validateDocument (<["age" := VStr " 42abc"]> charlie) "users" = Ok [].
Proof.
  apply (empty_validation_means_conforming (<["age" := VStr " 42abc"]> charlie)).
  vm_compute. reflexivity.
Defined.

(** X4.  Validation reads the five fields of the rules and nothing else:
    two documents that agree on them get the same answer, under every
    collection name. *)
Theorem validation_reads_only_ruled_fields (d1 d2 : object)
    (collection : string) :
  (forall f, In f ruled_fields -> get d1 f = get d2 f) ->
  validateDocument d1 collection = validateDocument d2 collection.
Proof.
  intros H. unfold validateDocument.
  destruct (rules_for collection) as [rules| |] eqn:Hr; [|done..].
  apply rules_for_found in Hr as [_ ->]. f_equal. f_equal.
  unfold validate_with, check_required, check_types, check_allowed,
    check_ranges, check_custom.
  cbn [flat_map requiredFields fieldTypes allowedValues valueRanges
       customValidations users].
  rewrite (H "name"), (H "email"), (H "age"), (H "role"), (H "isActive")
    by (cbn; tauto).
  reflexivity.
Qed.

Lemma validation_reads_only_ruled_fields_witness :
  validateDocument (<["nickname" := VNum (Fin 7)]> frank) "users"
  = validateDocument frank "users".
Proof.
  apply (validation_reads_only_ruled_fields
           (<["nickname" := VNum (Fin 7)]> frank) frank "users").
  intros f Hf. cbn in Hf.
  repeat (destruct Hf as [<-|Hf]; [vm_compute; reflexivity|]).
  destruct Hf.
Defined.

(** ** Repairs: how many, and what they leave *)

Lemma repair_issue_length rules doc st i st' :
  repair_issue rules doc st i = Ok st' ->
  (length (snd st') <= S (length (snd st)))%nat.
Proof.
  destruct st as [d rs]. cbn [snd]. unfold repair_issue.
  repeat first
    [ case_match
    | match goal with
      | |- bind _ _ = Ok _ -> _ =>
          let Hb := fresh "Hb" in
          intros Hb; apply bind_Ok in Hb as (? & ? & Hb); revert Hb
      end ];
    intros [= <-]; cbn [snd]; rewrite ?length_app; cbn [length]; lia.
Qed.

Lemma repair_all_length rules doc (issues : list issue_item) st st' :
  repair_all rules doc issues st = Ok st' ->
  (length (snd st') <= length (snd st) + length issues)%nat.
Proof.
  revert st. induction issues as [|it issues IH]; intros st; cbn.
  - intros [= <-]. lia.
  - intros H. apply bind_Ok in H as (st1 & Hstep & H).
    apply IH in H.
    assert ((length (snd st1) <= S (length (snd st)))%nat); [|lia].
    destruct it as [i|s]; cbn in Hstep.
    + by apply (repair_issue_length rules doc st i).
    + injection Hstep as <-. lia.
Qed.

Lemma repairDocument_length (doc : object) (issues : list issue_item)
    (collection : string) (r : RepairResult) :
  repairDocument doc issues collection = Ok r ->
  (length (repairs r) <= length issues)%nat.
Proof.
  unfold repairDocument, repair_with. intros H.
  apply bind_Ok in H as (st & Hall & H).
  apply bind_Ok in H as (del & _ & [= <-]). cbn [repairs].
  apply repair_all_length in Hall. cbn in Hall. lia.
Qed.

(** X5.  Whenever [repairDocument] returns, it has recorded at most one
    repair action per issue it was given. *)
Theorem at_most_one_repair_per_issue (doc : object)
    (issues : list issue_item) (collection : string) (r : RepairResult) :
  repairDocument doc issues collection = Ok r ->
  (length (repairs r) <= length issues)%nat.
Proof. apply repairDocument_length. Qed.

Lemma at_most_one_repair_per_issue_witness :
  (length (repairs grace_repaired) <= length grace_issues)%nat.
Proof.
  apply (at_most_one_repair_per_issue grace grace_issues "users").
  vm_compute. reflexivity.
Defined.

Lemma last_action_on_snoc (f : string) (rs : list RepairAction)
    (a : RepairAction) :
  last_action_on f (rs ++ [a])
  = if String.eqb (repair_field a) f then Some a else last_action_on f rs.
Proof.
  unfold last_action_on. rewrite List.filter_app. cbn [List.filter].
  destruct (String.eqb (repair_field a) f).
  - apply last_snoc.
  - by rewrite app_nil_r.
Qed.

Lemma get_set_same (o : object) (k : string) (v : value) :
  (k = "__proto__" -> v = Object_prototype_get "__proto__") ->
  get (set o k v) k = v.
Proof.
  intros Hv. unfold get, set.
  destruct (String.eqb_spec k "__proto__") as [->|Hne]; cbn [andb].
  - case_bool_decide as Hown.
    + rewrite Hown. symmetry. by apply Hv.
    + by rewrite lookup_insert_eq.
  - by rewrite lookup_insert_eq.
Qed.

Lemma records_final_values_step (d : object) (rs : list RepairAction)
    (a : RepairAction) :
  (repair_field a = "__proto__" ->
   newValue a = Object_prototype_get "__proto__") ->
  records_final_values d rs ->
  records_final_values (set d (repair_field a) (newValue a)) (rs ++ [a]).
Proof.
  intros Hp Hinv f b. rewrite last_action_on_snoc.
  destruct (String.eqb_spec (repair_field a) f) as [<-|Hne].
  - intros [= <-]. by apply get_set_same.
  - intros Hb. rewrite get_set_ne by done. by apply Hinv.
Qed.

Lemma repair_issue_final_values (collection : string) doc st i st' :
  records_final_values (fst st) (snd st) ->
  repair_issue (rules_for collection) doc st i = Ok st' ->
  records_final_values (fst st') (snd st').
Proof.
  destruct st as [d rs]. cbn [fst snd]. intros Hinv.
  unfold repair_issue.
  destruct (String.eqb (issue i) "missing_required_field") eqn:Hk1.
  { intros H. apply bind_Ok in H as (dv & Hdv & H).
    destruct (truthy dv); injection H as <-; [|done]. cbn [fst snd].
    apply (records_final_values_step d rs
             {| repair_field := field i; action := "set_default";
                oldValue := VUndefined; newValue := dv |}); [|done].
    cbn. intros Hf.
    destruct (rules_for collection) as [rules| |] eqn:Hr; try discriminate.
    apply rules_for_found in Hr as [_ ->]. cbn in Hdv.
    injection Hdv as <-. by rewrite Hf. }
  repeat first
    [ case_match
    | match goal with
      | |- bind _ _ = Ok _ -> _ =>
          let Hb := fresh "Hb" in
          intros Hb; apply bind_Ok in Hb as (? & ? & Hb); revert Hb
      end ];
    intros [= <-]; cbn [fst snd]; try assumption.
  all: match goal with
       | |- records_final_values (set _ ?f ?v) (_ ++ [?a]) =>
           apply (records_final_values_step _ _ a); [|assumption];
           cbn; intros Hf;
           repeat match goal with
                  | H : _ && _ = true |- _ => apply andb_prop in H as [H ?]
                  | H : String.eqb _ _ = true |- _ =>
                      apply String.eqb_eq in H
                  end; congruence
       end.
Qed.

Lemma repair_all_final_values (collection : string) doc
    (issues : list issue_item) st st' :
  records_final_values (fst st) (snd st) ->
  repair_all (rules_for collection) doc issues st = Ok st' ->
  records_final_values (fst st') (snd st').
Proof.
  revert st. induction issues as [|it issues IH]; intros st Hinv; cbn.
  - by intros [= <-].
  - intros H. apply bind_Ok in H as (st1 & Hstep & H).
    apply (IH st1); [|exact H].
    destruct it as [i|s]; cbn in Hstep.
    + by apply (repair_issue_final_values collection doc st i).
    + by injection Hstep as <-.
Qed.

(** X6.  Whenever [repairDocument] returns, each field named by a repair
    action holds, in the repaired document, the [newValue] of the last
    action that names it. *)
Theorem repaired_document_holds_recorded_values (doc : object)
    (issues : list issue_item) (collection : string) (r : RepairResult)
    (f : string) (a : RepairAction) :
  repairDocument doc issues collection = Ok r ->
  last_action_on f (repairs r) = Some a ->
  get (document r) f = newValue a.
Proof.
  unfold repairDocument, repair_with. intros H.
  apply bind_Ok in H as (st & Hall & H).
  apply bind_Ok in H as (del & _ & [= <-]). cbn [document repairs].
  apply (repair_all_final_values collection doc issues (doc, []) st);
    [|exact Hall].
  intros f' a'. discriminate.
Qed.

Lemma repaired_document_holds_recorded_values_witness :
  get (document grace_repaired) "age" = VNum (Fin 150).
Proof.
  apply (repaired_document_holds_recorded_values grace grace_issues "users"
           grace_repaired "age"
           {| repair_field := "age"; action := "clamp_to_max";
              oldValue := VNum (Fin 200); newValue := VNum (Fin 150) |}).
  - vm_compute. reflexivity.
  - reflexivity.
Defined.

(** X7.  On the issues [validateDocument] reports for [users],
    [repairDocument] never asks for deletion, records at most three actions,
    taken in order from: default for [email], default for [role], clamp of
    [age] to the minimum, clamp of [age] to the maximum; and it leaves every
    field other than [email], [role] and [age] as it was. *)
Theorem repair_of_validated_document (doc : object) :
  exists issues r,
    validateDocument doc "users" = Ok issues
    /\ repairDocument doc issues "users" = Ok r
    /\ shouldDelete r = false
    /\ sublist (map repair_signature (repairs r)) repair_plan
    /\ (length (repairs r) <= 3)%nat
    /\ forall f, f <> "email" -> f <> "role" -> f <> "age" ->
                 document r !! f = doc !! f.
Proof.
  exists (map IssueObject (validate_with users doc)). eexists.
  split; [reflexivity|]. split; [apply pipeline_repair|].
  cbn [document repairs shouldDelete]. split; [reflexivity|].
  unfold pipeline_state, repair_plan.
  destruct (missing (get doc "email")), (bad_role (get doc "role")),
    (below_range (get doc "age")), (above_range (get doc "age"));
    cbn [fst snd app map repair_signature repair_field action
         set_default_action clamp_action length];
    (split; [repeat constructor|]); (split; [lia|]);
    intros f He Hr Ha; rewrite ?lookup_set_ne by done; reflexivity.
Qed.

(** ** Scans *)

Lemma validated_never_irreparable (doc : object) (collection : string)
    (issues : list issue_item) (r : RepairResult) :
  validateDocument doc collection = Ok issues ->
  repairDocument doc issues collection = Ok r ->
  shouldDelete r = false.
Proof.
  unfold validateDocument.
  destruct (rules_for collection) as [rules| |] eqn:Hr; [|done|].
  - apply rules_for_found in Hr as [-> ->]. intros [= <-].
    rewrite pipeline_repair. by intros [= <-].
  - intros [= <-]. unfold repairDocument, repair_with. rewrite Hr. cbn.
    by intros [= <-].
Qed.

Lemma check_document_with_delete {DB : Type} (M : Model DB)
    (del : string -> DB -> result DB) (collectionName : string)
    (doc : Doc) (report : Report.t) (db : DB) :
  check_document (with_delete del M) collectionName doc report db
  = check_document M collectionName doc report db.
Proof.
  unfold check_document.
  destruct (validateDocument _ _) as [issues|e] eqn:Hv; [|done].
  destruct (0 <? length issues)%nat; [|done].
  destruct (repairDocument _ _ _) as [r|e] eqn:Hr; [|done].
  by rewrite (validated_never_irreparable _ _ _ _ Hv Hr).
Qed.

Lemma process_documents_with_delete {DB : Type} (M : Model DB)
    (del : string -> DB -> result DB) (collectionName : string)
    (docs : list Doc) (st : Report.t * DB) :
  process_documents (with_delete del M) collectionName docs st
  = process_documents M collectionName docs st.
Proof.
  unfold process_documents. revert st.
  induction docs as [|doc docs IH]; intros st; cbn [fold_left]; [done|].
  rewrite IH. f_equal. unfold process_document. destruct st as [report db].
  by rewrite check_document_with_delete.
Qed.

Lemma process_document_counted {DB : Type} (M : Model DB)
    (collectionName : string) (doc : Doc) (report : Report.t) (db : DB) :
  counted report (fst (process_document M collectionName doc (report, db))).
Proof.
  unfold process_document, check_document.
  destruct (validateDocument _ _) as [issues|e] eqn:Hv;
    [|unfold counted; cbn; rewrite ?length_app; cbn; lia].
  destruct (0 <? length issues)%nat;
    [|unfold counted; cbn; lia].
  destruct (repairDocument _ _ _) as [r|e] eqn:Hr;
    [|unfold counted; cbn; rewrite ?length_app; cbn; lia].
  rewrite (validated_never_irreparable _ _ _ _ Hv Hr).
  pose proof (repairDocument_length _ _ _ _ Hr) as Hlen.
  destruct (0 <? length (repairs r))%nat.
  - destruct (findByIdAndUpdate M _ _ db);
      unfold counted; cbn; rewrite ?length_app; cbn; lia.
  - unfold counted; cbn; lia.
Qed.

Lemma counted_refl (r : Report.t) : counted r r.
Proof. unfold counted. lia. Qed.

Lemma process_documents_counted {DB : Type} (M : Model DB)
    (collectionName : string) (docs : list Doc) (report : Report.t)
    (db : DB) :
  let r' := fst (process_documents M collectionName docs (report, db)) in
  Report.totalDocuments r' = Report.totalDocuments report
  /\ Report.documentsDeleted r' = Report.documentsDeleted report
  /\ (Report.repairsApplied r' + Report.inconsistenciesFound report
      <= Report.repairsApplied report + Report.inconsistenciesFound r')%nat
  /\ (length (Report.errors r')
      <= length (Report.errors report) + length docs)%nat.
Proof.
  cbn zeta. unfold process_documents. revert report db.
  induction docs as [|doc docs IH]; intros report db; cbn [fold_left].
  - cbn. lia.
  - pose proof (process_document_counted M collectionName doc report db)
      as (H1 & H2 & H3 & H4 & H5).
    destruct (process_document M collectionName doc (report, db))
      as [report1 db1]. cbn [fst] in *.
    specialize (IH report1 db1) as (I1 & I2 & I3 & I4).
    cbn [length]. lia.
Qed.

(** X8.  A scan never deletes: under every collection name the outcome of
    [checkCollection] does not depend on what [Model.findByIdAndDelete]
    does, and [documentsDeleted] of the report is 0. *)
Theorem scan_never_deletes {DB : Type}
    (Status_findOneAndUpdate : string -> Status.t -> DB -> result DB)
    (M : Model DB) (del : string -> DB -> result DB)
    (collectionName : string) (clock : Clock) (this : Checker) (db : DB) :
  checkCollection Status_findOneAndUpdate (with_delete del M) collectionName
    clock this db
  = checkCollection Status_findOneAndUpdate M collectionName clock this db
  /\ forall report,
       scan_report (checkCollection Status_findOneAndUpdate M collectionName
                      clock this db) = Some report ->
       Report.documentsDeleted report = 0%nat.
Proof.
  unfold checkCollection, scan_report, scan. split.
  - destruct (enter this); [|done]. cbn [find with_delete].
    destruct (find M db) as [docs|e]; [|done].
    by rewrite process_documents_with_delete.
  - destruct (enter this); [|done].
    destruct (find M db) as [docs|e]; cbn.
    + pose proof (process_documents_counted M collectionName docs
                    (with_totalDocuments (length docs)
                       (empty_report collectionName (startTime clock))) db)
        as (_ & H & _).
      destruct (process_documents _ _ _ _) as [r db']. cbn in *.
      by intros report [= <-].
    + by intros report [= <-].
Qed.

(** X9.  The counters of the report of a scan started on an idle checker:
    [repairsApplied] never exceeds [inconsistenciesFound] and [duration] is
    the end reading minus the start reading; when the documents are listed,
    [totalDocuments] is their number and there is at most one error per
    document; when listing fails, the report counts nothing, holds the one
    error of the failure, and the storage is left as it was. *)
Theorem scan_counters {DB : Type}
    (Status_findOneAndUpdate : string -> Status.t -> DB -> result DB)
    (M : Model DB) (collectionName : string) (clock : Clock) (db : DB) :
  exists report db',
    checkCollection Status_findOneAndUpdate M collectionName clock
      new_checker db = (Ok report, new_checker, db')
    /\ (Report.repairsApplied report
        <= Report.inconsistenciesFound report)%nat
    /\ Report.duration report = endTime clock - startTime clock
    /\ match find M db with
       | Ok documents =>
           Report.totalDocuments report = length documents
           /\ (length (Report.errors report) <= length documents)%nat
       | Throw error =>
           Report.totalDocuments report = 0%nat
           /\ Report.inconsistenciesFound report = 0%nat
           /\ Report.errors report
              = ["Consistency check failed: " ++ exn_message error]
           /\ db' = db
       end.
Proof.
  unfold checkCollection, scan. cbn [enter new_checker isRunning].
  destruct (find M db) as [docs|e].
  - pose proof (process_documents_counted M collectionName docs
                  (with_totalDocuments (length docs)
                     (empty_report collectionName (startTime clock))) db)
      as (H1 & H2 & H3 & H4).
    destruct (process_documents _ _ _ _) as [r db1]. cbn in *.
    do 2 eexists. split; [reflexivity|]. cbn. repeat split; lia.
  - do 2 eexists. split; [reflexivity|]. cbn. repeat split; lia.
Qed.

Lemma process_documents_unruled {DB : Type} (M : Model DB)
    (collectionName : string) (docs : list Doc) (r : Report.t) (db : DB) :
  rules_for collectionName = RulesUndefined ->
  process_documents M collectionName docs (r, db)
  = (push_details
       (map (fun d => Report.Summary (doc_id d) "unrepaired_issues" "none" "")
            docs)
       (add_inconsistencies (length docs) r), db).
Proof.
  intros Hr. unfold process_documents. revert r.
  induction docs as [|doc docs IH]; intros r; cbn [fold_left map length].
  - destruct r. unfold push_details, add_inconsistencies. cbn.
    by rewrite app_nil_r, Nat.add_0_r.
  - unfold process_document at 2, check_document, validateDocument,
      repairDocument, repair_with.
    rewrite Hr. cbn. rewrite IH. destruct r.
    unfold push_details, add_inconsistencies. cbn.
    rewrite <- app_assoc. cbn. do 2 f_equal. lia.
Qed.

Lemma process_documents_faulted {DB : Type} (M : Model DB)
    (collectionName : string) (docs : list Doc) (r : Report.t) (db : DB) :
  rules_for collectionName = RulesInherited ->
  process_documents M collectionName docs (r, db)
  = (fold_left (fun r msg => push_error msg r)
       (map (fun d => "Error processing document " ++ doc_id d ++ ": "
                      ++ exn_message (TypeError "forEach")) docs) r, db).
Proof.
  intros Hr. unfold process_documents. revert r.
  induction docs as [|doc docs IH]; intros r; cbn [fold_left map]; [done|].
  unfold process_document at 2, check_document, validateDocument.
  rewrite Hr. cbn [fst snd]. by rewrite IH.
Qed.

Lemma push_errors_all (msgs : list string) (r : Report.t) :
  fold_left (fun r msg => push_error msg r) msgs r
  = {| Report.timestamp := Report.timestamp r;
       Report.collection := Report.collection r;
       Report.totalDocuments := Report.totalDocuments r;
       Report.inconsistenciesFound := Report.inconsistenciesFound r;
       Report.repairsApplied := Report.repairsApplied r;
       Report.documentsDeleted := Report.documentsDeleted r;
       Report.errors := (Report.errors r ++ msgs)%list;
       Report.details := Report.details r;
       Report.duration := Report.duration r |}.
Proof.
  revert r. induction msgs as [|m msgs IH]; intros r; cbn [fold_left].
  - destruct r. cbn. by rewrite app_nil_r.
  - rewrite IH. unfold push_error. cbn. by rewrite <- app_assoc.
Qed.

(** X10.  A scan of a collection that has no rule set (and whose name is not
    inherited from [Object.prototype]) writes no document: it counts one
    inconsistency and one [unrepaired_issues] entry with empty text per
    document, no repair and no error, and hands that report to the status
    update. *)
Theorem scan_of_collection_without_rules {DB : Type}
    (Status_findOneAndUpdate : string -> Status.t -> DB -> result DB)
    (M : Model DB) (collectionName : string) (clock : Clock) (db : DB)
    (docs : list Doc) :
  String.eqb collectionName "users" = false ->
  inherited collectionName = false ->
  find M db = Ok docs ->
  checkCollection Status_findOneAndUpdate M collectionName clock
    new_checker db
  = (Ok (with_duration (endTime clock - startTime clock)
           (unruled_report collectionName clock docs)),
     new_checker,
     updateConsistencyStatus Status_findOneAndUpdate collectionName
       (unruled_report collectionName clock docs) (statusTime clock) db).
Proof.
  intros Hu Hi Hfind.
  assert (Hr : rules_for collectionName = RulesUndefined).
  { unfold rules_for, validationRules. cbn [own]. by rewrite Hu, Hi. }
  unfold checkCollection, scan. cbn [enter new_checker isRunning].
  rewrite Hfind, process_documents_unruled by done.
  reflexivity.
Qed.

Lemma scan_of_collection_without_rules_witness :
  checkCollection mem_upsert_status MemModel "orders" sample_clock
    new_checker conforming_db
  = (Ok (with_duration (endTime sample_clock - startTime sample_clock)
           (unruled_report "orders" sample_clock (mem_docs conforming_db))),
     new_checker,
     updateConsistencyStatus mem_upsert_status "orders"
       (unruled_report "orders" sample_clock (mem_docs conforming_db))
       (statusTime sample_clock) conforming_db).
Proof.
  apply (scan_of_collection_without_rules mem_upsert_status MemModel
           "orders" sample_clock conforming_db (mem_docs conforming_db)).
  - reflexivity.
  - reflexivity.
  - reflexivity.
Defined.

(** X11.  A scan under a collection name inherited from [Object.prototype]
    fails on every document: the report holds one error per document and
    counts no inconsistency, and so the status computed from it says the
    collection is consistent. *)
Theorem scan_under_inherited_name {DB : Type}
    (Status_findOneAndUpdate : string -> Status.t -> DB -> result DB)
    (M : Model DB) (collectionName : string) (clock : Clock) (db : DB)
    (docs : list Doc) :
  inherited collectionName = true ->
  find M db = Ok docs ->
  checkCollection Status_findOneAndUpdate M collectionName clock
    new_checker db
  = (Ok (with_duration (endTime clock - startTime clock)
           (faulted_report collectionName clock docs)),
     new_checker,
     updateConsistencyStatus Status_findOneAndUpdate collectionName
       (faulted_report collectionName clock docs) (statusTime clock) db)
  /\ Status.isConsistent
       (status_of collectionName (faulted_report collectionName clock docs)
          (statusTime clock)) = true.
Proof.
  intros Hi Hfind.
  assert (Hr : rules_for collectionName = RulesInherited).
  { unfold rules_for, validationRules. cbn [own].
    destruct (String.eqb_spec collectionName "users") as [->|_];
      [discriminate Hi|]. by rewrite Hi. }
  split; [|reflexivity].
  unfold checkCollection, scan. cbn [enter new_checker isRunning].
  rewrite Hfind, process_documents_faulted, push_errors_all by done.
  reflexivity.
Qed.

Lemma scan_under_inherited_name_witness :
  checkCollection mem_upsert_status MemModel "toString" sample_clock
    new_checker conforming_db
  = (Ok (with_duration (endTime sample_clock - startTime sample_clock)
           (faulted_report "toString" sample_clock
              (mem_docs conforming_db))),
     new_checker,
     updateConsistencyStatus mem_upsert_status "toString"
       (faulted_report "toString" sample_clock (mem_docs conforming_db))
       (statusTime sample_clock) conforming_db)
  /\ Status.isConsistent
       (status_of "toString"
          (faulted_report "toString" sample_clock (mem_docs conforming_db))
          (statusTime sample_clock)) = true.
Proof.
  apply (scan_under_inherited_name mem_upsert_status MemModel
           "toString" sample_clock conforming_db (mem_docs conforming_db)).
  - reflexivity.
  - reflexivity.
Defined.

(** X12.  What [updateConsistencyStatus] writes, [getConsistencyStatus] reads
    back.  On a storage where the upsert succeeds and the record found
    afterwards carries the [isConsistent] that was written, the answer has
    [isConsistent] true exactly when the report has no inconsistency or as
    many as repairs plus deletions, [status] is ['consistent'] or
    ['inconsistent'] accordingly, and there is no [error]. *)
Theorem status_written_is_status_read {DB : Type}
    (Status_findOneAndUpdate : string -> Status.t -> DB -> result DB)
    (Status_findOne : string -> DB -> result (option Status.t))
    (collectionName : string) (report : Report.t) (now : Z) (db db' : DB)
    (stored : Status.t) :
  Status_findOneAndUpdate collectionName
    (status_of collectionName report now) db = Ok db' ->
  Status_findOne collectionName db' = Ok (Some stored) ->
  Status.isConsistent stored
  = Status.isConsistent (status_of collectionName report now) ->
  let view :=
    getConsistencyStatus Status_findOne collectionName
      (updateConsistencyStatus Status_findOneAndUpdate collectionName
         report now db) in
  (StatusView.isConsistent view = true <->
     Report.inconsistenciesFound report = 0%nat
     \/ Report.inconsistenciesFound report
        = (Report.repairsApplied report + Report.documentsDeleted report)%nat)
  /\ StatusView.status view
     = (if StatusView.isConsistent view
        then "consistent" else "inconsistent")
  /\ StatusView.error view = None.
Proof.
  intros Hup Hfind Hsame. cbn zeta.
  unfold updateConsistencyStatus, getConsistencyStatus.
  rewrite Hup, Hfind. cbn [StatusView.isConsistent StatusView.status
                           StatusView.error].
  split; [|by split]. rewrite Hsame. unfold status_of.
  cbn [Status.isConsistent]. rewrite orb_true_iff, !Nat.eqb_eq. reflexivity.
Qed.

Lemma status_written_is_status_read_witness :
  let view :=
    getConsistencyStatus mem_find_status "users"
      (updateConsistencyStatus mem_upsert_status "users" repaired_report 7
         (sample_db false (fun _ => false))) in
  (StatusView.isConsistent view = true <->
     Report.inconsistenciesFound repaired_report = 0%nat
     \/ Report.inconsistenciesFound repaired_report
        = (Report.repairsApplied repaired_report
           + Report.documentsDeleted repaired_report)%nat)
  /\ StatusView.status view
     = (if StatusView.isConsistent view
        then "consistent" else "inconsistent")
  /\ StatusView.error view = None.
Proof.
  eapply (status_written_is_status_read mem_upsert_status mem_find_status
            "users" repaired_report 7 (sample_db false (fun _ => false))
            _ (status_of "users" repaired_report 7)).
  - reflexivity.
  - vm_compute. reflexivity.
  - reflexivity.
Defined.

Import ReportGenerator.

(** X13.  [getReportStatus] against the status projector.  The label is
    ['error'] exactly when the report has errors; for a report without
    errors it is ['clean'] or ['repaired'] exactly when
    [updateConsistencyStatus] computes [isConsistent] true; and a label
    ['clean'] or ['repaired'] always comes with [isConsistent] true. *)
Theorem report_status_agrees_with_projector (report : Report.t)
    (collectionName : string) (now : Z) :
  (getReportStatus report = "error" <-> Report.errors report <> [])
  /\ (Report.errors report = [] ->
      (Status.isConsistent (status_of collectionName report now) = true <->
       getReportStatus report = "clean"
       \/ getReportStatus report = "repaired"))
  /\ (getReportStatus report = "clean"
      \/ getReportStatus report = "repaired" ->
      Status.isConsistent (status_of collectionName report now) = true).
Proof.
  unfold getReportStatus, status_of. cbn [Status.isConsistent].
  destruct (Report.errors report) as [|e es]; cbn [length Nat.ltb Nat.leb].
  - destruct (Nat.eqb (Report.inconsistenciesFound report) 0);
      destruct (Nat.eqb (Report.inconsistenciesFound report) _);
      cbn; intuition congruence.
  - destruct (Nat.eqb (Report.inconsistenciesFound report) 0);
      destruct (Nat.eqb (Report.inconsistenciesFound report) _);
      cbn; intuition congruence.
Qed.

Lemma run_scans_idle {DB : Type}
    (Status_findOneAndUpdate : string -> Status.t -> DB -> result DB)
    (M : Model DB) (calls : list (string * Clock)) (this : Checker)
    (db : DB) :
  isRunning this = false -> currentCheck this = None ->
  let out := run_scans Status_findOneAndUpdate M calls this db in
  forallb returned (fst (fst out)) = true
  /\ isActive (snd (fst out)) = false
  /\ getCurrentCheck (snd (fst out)) = None.
Proof.
  cbn zeta. revert this db.
  induction calls as [|[name clock] calls IH]; intros this db Hidle Hnone.
  - cbn. by repeat split.
  - cbn [run_scans]. unfold checkCollection, enter. rewrite Hidle.
    destruct (scan _ _ _ _ _) as [report db1].
    specialize (IH (leave {| isRunning := true;
                             currentCheck := currentCheck this |}) db1
                  eq_refl eq_refl) as (I1 & I2 & I3).
    destruct (run_scans _ _ _ _ _) as [[results this2] db2].
    cbn in *. by repeat split.
Qed.

(** X14.  Scans made one after the other on a new checker, under any
    collection names and whatever the storage does, are all admitted: none
    is rejected, and after the last [isActive()] is false and
    [getCurrentCheck()] is [null]. *)
Theorem sequential_scans_are_all_admitted {DB : Type}
    (Status_findOneAndUpdate : string -> Status.t -> DB -> result DB)
    (M : Model DB) (calls : list (string * Clock)) (db : DB) :
  let out := run_scans Status_findOneAndUpdate M calls new_checker db in
  forallb returned (fst (fst out)) = true
  /\ isActive (snd (fst out)) = false
  /\ getCurrentCheck (snd (fst out)) = None.
Proof.
  exact (run_scans_idle Status_findOneAndUpdate M calls new_checker db
           eq_refl eq_refl).
Qed.

Lemma rules_defaultValues_throws (rules : rules_ref) (f : string) :
  without_rules rules -> exists e, rules_defaultValues rules f = Throw e.
Proof. intros H. destruct rules; cbn; eauto. by destruct (H rules). Qed.

Lemma rules_valueRanges_throws (rules : rules_ref) (f : string) :
  without_rules rules -> exists e, rules_valueRanges rules f = Throw e.
Proof. intros H. destruct rules; cbn; eauto. by destruct (H rules). Qed.

Lemma repair_step_without_rules (rules : rules_ref) doc st it :
  without_rules rules ->
  if repair_reads_rules it
  then exists e, repair_step rules doc st it = Throw e
  else exists st', repair_step rules doc st it = Ok st'.
Proof.
  intros Hw. destruct it as [i|s]; cbn; [|eauto].
  destruct st as [d rs]. unfold repair_issue.
  destruct (rules_defaultValues_throws rules (field i) Hw) as [e1 He1].
  destruct (rules_valueRanges_throws rules (field i) Hw) as [e2 He2].
  destruct (String.eqb_spec (issue i) "missing_required_field") as [Hk|Hk].
  { rewrite Hk. cbn. rewrite He1. cbn. eauto. }
  destruct (String.eqb_spec (issue i) "invalid_type") as [Hk2|Hk2].
  { rewrite Hk2. cbn. repeat case_match; eauto. }
  destruct (String.eqb_spec (issue i) "invalid_value") as [Hk3|Hk3].
  { rewrite Hk3. cbn. rewrite orb_false_r.
    destruct (String.eqb (field i) "role"); [|eauto].
    rewrite He1. cbn. eauto. }
  destruct (String.eqb_spec (issue i) "out_of_range") as [Hk4|Hk4].
  { cbn. destruct (String.eqb (field i) "age"); [|eauto].
    rewrite He2. cbn. eauto. }
  cbn. eauto.
Qed.

Lemma repair_all_without_rules (rules : rules_ref) doc
    (issues : list issue_item) st :
  without_rules rules ->
  if existsb repair_reads_rules issues
  then exists e, repair_all rules doc issues st = Throw e
  else exists st', repair_all rules doc issues st = Ok st'.
Proof.
  intros Hw. revert st. induction issues as [|it issues IH]; intros st.
  - cbn. eauto.
  - cbn [existsb repair_all].
    pose proof (repair_step_without_rules rules doc st it Hw) as Hstep.
    destruct (repair_reads_rules it); cbn [orb].
    + destruct Hstep as [e ->]. cbn. eauto.
    + destruct Hstep as [st1 ->]. cbn. apply IH.
Qed.

Lemma some_irreparable_without_rules (rules : rules_ref)
    (issues : list issue_item) :
  without_rules rules ->
  if existsb verdict_reads_rules issues
  then exists e, some_irreparable rules issues = Throw e
  else some_irreparable rules issues = Ok false.
Proof.
  intros Hw. induction issues as [|it issues IH]; [done|].
  cbn [existsb some_irreparable].
  destruct it as [i|s]; cbn [verdict_reads_rules irreparable].
  - destruct (String.eqb (severity i) "high"
              && String.eqb (issue i) "invalid_value"); cbn [orb].
    + destruct (rules_defaultValues_throws rules (field i) Hw) as [e ->].
      cbn. eauto.
    + cbn. exact IH.
  - cbn. exact IH.
Qed.

Lemma rules_for_without_rules (collection : string) :
  String.eqb collection "users" = false ->
  without_rules (rules_for collection).
Proof.
  intros Hu r Hr. apply rules_for_found in Hr as [-> _]. discriminate Hu.
Qed.

Lemma existsb_reads_rules (issues : list issue_item) :
  existsb reads_rules issues
  = existsb repair_reads_rules issues || existsb verdict_reads_rules issues.
Proof.
  induction issues as [|it issues IH]; [done|]. cbn [existsb].
  rewrite IH. unfold reads_rules.
  destruct (repair_reads_rules it), (verdict_reads_rules it),
    (existsb repair_reads_rules issues); reflexivity.
Qed.

(** X15.  For a collection other than [users], [repairDocument] raises
    exactly when some issue makes it read the rules: a
    [missing_required_field] issue, an [invalid_value] issue on [role] or of
    high severity, or an [out_of_range] issue on [age].  Otherwise it returns
    with [shouldDelete] false. *)
Theorem repair_without_rules_raises (doc : object)
    (issues : list issue_item) (collection : string) :
  String.eqb collection "users" = false ->
  if existsb reads_rules issues
  then exists e, repairDocument doc issues collection = Throw e
  else exists r, repairDocument doc issues collection = Ok r
                 /\ shouldDelete r = false.
Proof.
  intros Hu. apply rules_for_without_rules in Hu.
  unfold repairDocument, repair_with.
  pose proof (repair_all_without_rules (rules_for collection) doc issues
                (doc, []) Hu) as Hall.
  pose proof (some_irreparable_without_rules (rules_for collection) issues Hu)
    as Hsome.
  rewrite existsb_reads_rules.
  destruct (existsb repair_reads_rules issues); cbn [orb].
  - destruct Hall as [e ->]. cbn. eauto.
  - destruct Hall as [st ->]. cbn [bind].
    destruct (existsb verdict_reads_rules issues).
    + destruct Hsome as [e ->]. cbn. eauto.
    + rewrite Hsome. cbn. eauto.
Qed.

Lemma repair_without_rules_raises_witness :
  exists e,
    repairDocument luke [mk_issue "email" "missing_required_field" "high"]
      "orders" = Throw e.
Proof.
  apply (repair_without_rules_raises luke
           [mk_issue "email" "missing_required_field" "high"] "orders").
  reflexivity.
Defined.

Lemma process_documents_conforming {DB : Type} (M : Model DB)
    (docs : list Doc) (r : Report.t) (db : DB) :
  forallb (fun d => conforms (doc_fields d)) docs = true ->
  process_documents M "users" docs (r, db) = (r, db).
Proof.
  unfold process_documents.
  induction docs as [|doc docs IH]; cbn [forallb fold_left]; [done|].
  intros H. apply andb_prop in H as [Hd Hs].
  unfold process_document at 2, check_document.
  change (validateDocument (doc_fields doc) "users")
    with (Ok (map IssueObject (validate_with users (doc_fields doc)))).
  apply validate_empty_iff in Hd. rewrite Hd. cbn. by apply IH.
Qed.

(** X16.  A scan of [users] over documents that all satisfy the rules writes
    no document: the report counts the documents and nothing else, has no
    detail and no error, and the status computed from it says the collection
    is consistent. *)
Theorem scan_of_conforming_documents {DB : Type}
    (Status_findOneAndUpdate : string -> Status.t -> DB -> result DB)
    (M : Model DB) (clock : Clock) (db : DB) (docs : list Doc) :
  find M db = Ok docs ->
  forallb (fun d => conforms (doc_fields d)) docs = true ->
  checkCollection Status_findOneAndUpdate M "users" clock new_checker db
  = (Ok (with_duration (endTime clock - startTime clock)
           (clean_report "users" clock docs)),
     new_checker,
     updateConsistencyStatus Status_findOneAndUpdate "users"
       (clean_report "users" clock docs) (statusTime clock) db)
  /\ Status.isConsistent
       (status_of "users" (clean_report "users" clock docs)
          (statusTime clock)) = true.
Proof.
  intros Hfind Hok. split; [|reflexivity].
  unfold checkCollection, scan. cbn [enter new_checker isRunning].
  rewrite Hfind, process_documents_conforming by done.
  reflexivity.
Qed.

Lemma scan_of_conforming_documents_witness :
  checkCollection mem_upsert_status MemModel "users" sample_clock
    new_checker conforming_db
  = (Ok (with_duration (endTime sample_clock - startTime sample_clock)
           (clean_report "users" sample_clock (mem_docs conforming_db))),
     new_checker,
     updateConsistencyStatus mem_upsert_status "users"
       (clean_report "users" sample_clock (mem_docs conforming_db))
       (statusTime sample_clock) conforming_db)
  /\ Status.isConsistent
       (status_of "users"
          (clean_report "users" sample_clock (mem_docs conforming_db))
          (statusTime sample_clock)) = true.
Proof.
  apply (scan_of_conforming_documents mem_upsert_status MemModel
           sample_clock conforming_db (mem_docs conforming_db)).
  - reflexivity.
  - vm_compute. reflexivity.
Defined.

(** ** Defaults and missing rules, as the code has them *)

(** X17.  The deletion verdict as the code computes it for [users]:
    [shouldDelete] is true exactly when some issue of high severity and kind
    [invalid_value] names a field whose entry in [defaultValues] is falsy
    (absent, or present as 0). *)
Theorem deletion_verdict_tests_truthiness (doc : object)
    (issues : list issue_item) (r : RepairResult) :
  repairDocument doc issues "users" = Ok r ->
  (shouldDelete r = true <->
   exists i, In (IssueObject i) issues /\ severity i = "high"
             /\ issue i = "invalid_value"
             /\ truthy (default_value users (field i)) = false).
Proof. apply shouldDelete_users. Qed.

Lemma deletion_verdict_tests_truthiness_witness :
  shouldDelete grace_repaired = true <->
  exists i, In (IssueObject i) grace_issues /\ severity i = "high"
            /\ issue i = "invalid_value"
            /\ truthy (default_value users (field i)) = false.
Proof.
  apply (deletion_verdict_tests_truthiness grace grace_issues grace_repaired).
  vm_compute. reflexivity.
Defined.

(** X18.  For [users] and a document whose [age] is not an object (it is
    absent, [null], a boolean, a number or a string), [repairDocument]
    returns a result for every list of issues: it does not raise.  The one
    conversion it makes is the comparison of [age] with the bounds of its
    range, and on these values the comparison is defined. *)
Theorem repair_of_users_always_returns (doc : object)
    (issues : list issue_item) :
  scalar (get doc "age") = true ->
  exists r, repairDocument doc issues "users" = Ok r.
Proof. intros _. apply repairDocument_users_total. Qed.

Lemma repair_of_users_always_returns_witness :
  exists r, repairDocument grace grace_issues "users" = Ok r.
Proof.
  apply (repair_of_users_always_returns grace grace_issues).
  vm_compute. reflexivity.
Defined.

(** X19.  For a collection name other than [users] that is not inherited
    from [Object.prototype], [validateDocument] returns exactly one bare
    string naming the collection, and [repairDocument] on that answer
    returns the document unchanged, without repairs and without asking for
    deletion. *)
Theorem unknown_collection_gets_one_synthetic_issue (doc : object)
    (collection : string) :
  String.eqb collection "users" = false -> inherited collection = false ->
  validateDocument doc collection
  = Ok [IssueString
          ("No validation rules found for collection: " ++ collection)]
  /\ repairDocument doc
       [IssueString
          ("No validation rules found for collection: " ++ collection)]
       collection
     = Ok {| document := doc; repairs := []; shouldDelete := false |}.
Proof.
  intros Hu Hi. split; [by apply validateDocument_unknown_collection|].
  reflexivity.
Qed.

Lemma unknown_collection_gets_one_synthetic_issue_witness :
  validateDocument luke "orders"
  = Ok [IssueString ("No validation rules found for collection: " ++ "orders")]
  /\ repairDocument luke
       [IssueString
          ("No validation rules found for collection: " ++ "orders")]
       "orders"
     = Ok {| document := luke; repairs := []; shouldDelete := false |}.
Proof.
  apply (unknown_collection_gets_one_synthetic_issue luke "orders").
  - reflexivity.
  - reflexivity.
Defined.

(** X20.  On the issues [validateDocument] reports for [users], a
    [missing_required_field] issue is on [email] or on [name]: [email] ends
    up holding its default, with a [set_default] action recorded; [name] is
    left as it was and no action names it; the document is not marked for
    deletion. *)
Theorem missing_fields_after_validation (doc : object)
    (issues : list issue_item) (i : Issue) :
  validateDocument doc "users" = Ok issues ->
  In (IssueObject i) issues ->
  issue i = "missing_required_field" ->
  exists r,
    repairDocument doc issues "users" = Ok r
    /\ shouldDelete r = false
    /\ ((field i = "email"
         /\ get (document r) "email" = VStr "missing@example.com"
         /\ In {| repair_field := "email"; action := "set_default";
                  oldValue := VUndefined;
                  newValue := VStr "missing@example.com" |} (repairs r))
        \/ (field i = "name"
            /\ (forall a, In a (repairs r) -> repair_field a <> "name")
            /\ document r !! "name" = doc !! "name")).
Proof.
  intros Hv Hin Hk. rewrite validateDocument_users in Hv. injection Hv as <-.
  apply in_map_iff in Hin as (i' & [= ->] & Hin).
  eexists. split; [apply pipeline_repair|]. cbn [document repairs shouldDelete].
  split; [reflexivity|].
  destruct (missing_required_on_validator_issues doc i Hin Hk)
    as [(Hf & Hg & Ha)|(Hf & _ & Ha & Hl)]; [left|right]; by repeat split.
Qed.

Lemma missing_fields_after_validation_witness :
  exists r,
    repairDocument bob bob_issues "users" = Ok r
    /\ shouldDelete r = false
    /\ (("email" = "email"
         /\ get (document r) "email" = VStr "missing@example.com"
         /\ In {| repair_field := "email"; action := "set_default";
                  oldValue := VUndefined;
                  newValue := VStr "missing@example.com" |} (repairs r))
        \/ ("email" = "name"
            /\ (forall a, In a (repairs r) -> repair_field a <> "name")
            /\ document r !! "name" = bob !! "name")).
Proof.
  apply (missing_fields_after_validation bob bob_issues
           {| field := "email"; issue := "missing_required_field";
              severity := "high";
              description := "Required field 'email' is missing or empty" |}).
  - reflexivity.
  - left. reflexivity.
  - reflexivity.
Defined.
